(** * stem-demo: a shallow embedding of the validator, the pipeline runner
      and the [separate] command

    Sources embedded here:
    - [stem_demo/core/processor.py]  (class [AudioProcessor])
    - [stem_demo/cli/separate.py]    (the click command [separate])
    - [stem_demo/utils/console.py]   (the print helpers the command calls)

    Python's [pathlib] is modelled for POSIX paths ([PurePosixPath]) with the
    semantics of CPython 3.10 to 3.12, the versions [setup.py] declares.
    Python [str] values are Rocq strings (sequences of bytes, UTF-8 for what
    is outside ASCII); [float] progress fractions and timestamps are exact
    rationals.  The libraries the command is built on, click and rich, are
    modelled as far as the command depends on them: what click does with
    the parameters before it calls the function, and when rich refuses to
    print a string (rich 13). *)

From Stdlib Require Import ZArith QArith Qabs Ascii.
From stdpp Require Import base list strings gmap sorting pretty.

Local Open Scope Z_scope.

(** ** Python string operations *)

Module PyStr.

Definition nl : string := String "010" "".

(** [len(s)] *)
Definition len (s : string) : Z := Z.of_nat (String.length s).

(** [c.lower()] for one ASCII character; other bytes are left alone. *)
Definition lower_ascii (c : ascii) : ascii :=
let n := N_of_ascii c in
if ((65 <=? n) && (n <=? 90))%N then ascii_of_N (n + 32) else c.

(** [s.lower()] *)
Fixpoint lower (s : string) : string :=
match s with
| EmptyString => EmptyString
| String c s' => String (lower_ascii c) (lower s')
end.

(** [s.lstrip(c)] *)
Fixpoint lstrip (c : ascii) (s : string) : string :=
match s with
| String a s' => if Ascii.eqb a c then lstrip c s' else s
| EmptyString => EmptyString
end.

(** [s.split(c)]: the pieces between the occurrences of [c]; never empty,
  [''.split('/') == ['']]. *)
Fixpoint split (c : ascii) (s : string) : list string :=
match s with
| EmptyString => [EmptyString]
| String a s' =>
    if Ascii.eqb a c then EmptyString :: split c s'
    else match split c s' with
         | w :: ws => String a w :: ws
         | [] => [String a EmptyString]
         end
end.

(** [sep.join(l)] *)
Definition join (sep : string) (l : list string) : string :=
String.concat sep l.

(** [s.rfind(c)]: the index of the last occurrence of [c], [-1] if none. *)
Fixpoint rfind_from (c : ascii) (s : string) (i : Z) (last : Z) : Z :=
match s with
| EmptyString => last
| String a s' => rfind_from c s' (i + 1) (if Ascii.eqb a c then i else last)
end.

Definition rfind (c : ascii) (s : string) : Z := rfind_from c s 0 (-1).

(** [s[i:]] and [s[:i]] for [0 <= i]. *)
Definition slice_from (i : Z) (s : string) : string :=
String.substring (Z.to_nat i) (String.length s - Z.to_nat i) s.

Definition slice_to (i : Z) (s : string) : string :=
String.substring 0 (Z.to_nat i) s.

(** [c in s] for a character *)
Fixpoint contains (c : ascii) (s : string) : bool :=
match s with
| EmptyString => false
| String a s' => Ascii.eqb a c || contains c s'
end.

End PyStr.

(** ** [pathlib.PurePosixPath] *)

Module Pathlib.

Definition sep : ascii := "/"%char.
Definition dot : ascii := "."%char.

(** A parsed path: the root ([""], ["/"] or ["//"]) and the components
  after it. *)
Record PurePath := mkPath { root : string; parts : list string }.

(** [splitroot]: two leading slashes exactly are kept, any other number
  of leading slashes is one root slash. *)
Definition splitroot (part : string) : string * string :=
match part with
| String a _ =>
    if Ascii.eqb a sep then
      let stripped_part := PyStr.lstrip sep part in
      if PyStr.len part - PyStr.len stripped_part =? 2
      then ("//", stripped_part)
      else ("/", stripped_part)
    else ("", part)
| EmptyString => ("", part)
end.

(** the components kept by the parser: not empty and not ["."] *)
Definition keep (x : string) : bool :=
negb (String.eqb x "") && negb (String.eqb x ".").

(** [Path(s)] *)
Definition Path (s : string) : PurePath :=
let '(r, rel) := splitroot s in
mkPath r (filter (λ x, keep x = true) (PyStr.split sep rel)).

(** [str(p)] *)
Definition str (p : PurePath) : string :=
let s := root p +:+ PyStr.join "/" (parts p) in
if String.eqb s "" then "." else s.

(** [p.name]: the last component, [''] if there is none *)
Definition name (p : PurePath) : string := List.last (parts p) "".

(** [p.suffix] *)
Definition suffix (p : PurePath) : string :=
let name := name p in
let i := PyStr.rfind dot name in
if (0 <? i) && (i <? PyStr.len name - 1) then PyStr.slice_from i name
else "".

(** [p.stem] *)
Definition stem (p : PurePath) : string :=
let name := name p in
let i := PyStr.rfind dot name in
if (0 <? i) && (i <? PyStr.len name - 1) then PyStr.slice_to i name
else name.

(** [p.parent]: the path without its last component; a path with no
  component is its own parent. *)
Definition parent (p : PurePath) : PurePath :=
mkPath (root p) (removelast (parts p)).

(** [p / key] *)
Definition joinpath (p : PurePath) (key : string) : PurePath :=
let k := Path key in
if String.eqb (root k) "" then mkPath (root p) (parts p ++ parts k)
else k.

End Pathlib.

(** ** Exceptions and effects *)

(** The exception classes the command tells apart: [KeyboardInterrupt] and
    [SystemExit] derive from [BaseException] only, everything else that the
    code can meet is an [Exception] carrying its message ([str(e)]). *)
Inductive exn :=
| KeyboardInterrupt
| SystemExit (code : Z)
| Exception (msg : string).

Inductive res (A : Type) :=
| Returns (a : A)
| Raises (e : exn).
Arguments Returns {A} a.
Arguments Raises {A} e.

Global Instance res_ret : MRet res := λ A a, Returns a.

Global Instance res_bind : MBind res := λ A B k m,
  match m with
  | Returns a => k a
  | Raises e => Raises e
  end.

Global Instance res_fmap : FMap res := λ A B f m,
  match m with
  | Returns a => Returns (f a)
  | Raises e => Raises e
  end.

(** A computation over a state [S] that returns or raises. *)
Definition Eff (S A : Type) : Type := S → res A * S.

(** Code that returns or raises without touching the state. *)
Definition lift {S A} (r : res A) : Eff S A := λ s, (r, s).

Global Instance eff_ret {S} : MRet (Eff S) := λ A a s, (Returns a, s).

Global Instance eff_bind {S} : MBind (Eff S) := λ A B k m s,
  match m s with
  | (Returns a, s') => k a s'
  | (Raises e, s') => (Raises e, s')
  end.

Definition raise {S A} (e : exn) : Eff S A := λ s, (Raises e, s).

(** [try: m  except KeyboardInterrupt: hk  except Exception as e: he]:
    any other exception goes through. *)
Definition try_except {S A} (m : Eff S A)
    (on_interrupt : Eff S A) (on_exception : string → Eff S A) : Eff S A :=
  λ s, match m s with
       | (Returns a, s') => (Returns a, s')
       | (Raises KeyboardInterrupt, s') => on_interrupt s'
       | (Raises (Exception msg), s') => on_exception msg s'
       | (Raises (SystemExit c), s') => (Raises (SystemExit c), s')
       end.

(** [try: m  finally: leave]: [leave] runs on the way out, also when [m]
    raised, and the exception of [m] goes on unless [leave] raises itself. *)
Definition finally {S A} (m : Eff S A) (leave : Eff S unit) : Eff S A :=
  λ s, match m s with
       | (Returns a, s') =>
           match leave s' with
           | (Returns _, s'') => (Returns a, s'')
           | (Raises e, s'') => (Raises e, s'')
           end
       | (Raises e, s') =>
           match leave s' with
           | (Returns _, s'') => (Raises e, s'')
           | (Raises e', s'') => (Raises e', s'')
           end
       end.

(** [for x in l: acc = body(x, acc)] *)
Fixpoint for_each {S A B} (l : list A) (body : A → B → Eff S B) (acc : B)
    : Eff S B :=
  match l with
  | [] => mret acc
  | x :: l' => acc' ← body x acc; for_each l' body acc'
  end.

(** [enumerate(l, start)] *)
Fixpoint enumerate_from {A} (start : Z) (l : list A) : list (Z * A) :=
  match l with
  | [] => []
  | x :: l' => (start, x) :: enumerate_from (start + 1) l'
  end.

Definition enumerate {A} (l : list A) : list (Z * A) := enumerate_from 0 l.

(** ** The world the program runs in *)

(** What [os.stat] does at a path: it finds a regular file, a directory
    or something else, or it fails.  [Missing] stands for the failures
    that pathlib reads as absence ([ENOENT], [ENOTDIR], [EBADF], [ELOOP]),
    [StatError msg] for an [OSError] of any other kind (a name that is too
    long, a directory that may not be searched), [msg] being [str(e)]. *)
Inductive file_kind :=
| Missing
| RegularFile
| Directory
| Special
| StatError (msg : string).

Definition filesystem := string → file_kind.

(** The dictionary [process_audio] returns, with its two keys. *)
Record result := mkResult { stems : list string; duration : Q }.

(** What is handed to [console.print]. *)
Inductive renderable :=
| Newline
| Markup (s : string) (style : string)
| Text (s : string) (style : string)
| Panel (message title border_style : string)
| Traceback.

(** Observable steps of a run of [process_audio], in order. *)
Inductive event :=
| EvEnter (file_path : string)
| EvProgress (step : string) (fraction : Q)
| EvSleep (seconds : Q)
| EvReturn (r : result).

(** [ext] is the state behind the progress callback (for the command: the
    progress bar of the terminal library); [console] is what reached the
    terminal; [clock n] is what the [n]-th coming call of [time.time()]
    returns, and nothing ties these readings to one another or to the
    pauses; [sigint] says during which of the coming [time.sleep] calls the
    user presses Ctrl-C, if at all. *)
Record world (E : Type) := mkWorld {
  ext : E;
  console : list renderable;
  clock : nat → Q;
  sigint : option nat;
  trace : list event
}.
Arguments mkWorld {E}.
Arguments ext {E}.
Arguments console {E}.
Arguments clock {E}.
Arguments sigint {E}.
Arguments trace {E}.

(** ** [rich] console markup

    [console.print] renders a [str] as markup, and so does a panel with its
    message and its title. [rich.markup.render] takes as a tag an opening
    bracket, a lower-case letter or one of the characters #, / and @, then
    whatever is no opening bracket up to the next closing bracket; a tag
    behind an odd number of backslashes is text. It keeps a stack of the
    open tags and raises [MarkupError] at a closing tag only: a named one
    when no open tag has that name, an unnamed one when none is open, and
    when the tag it closes is an @ handler whose parameters do not parse.
    The parser
    belongs to the library and is a parameter here ([markup_error] below);
    what this module fixes is a check that is on the safe side: a string
    that passes it gives the parser no closing tag it could stumble on. *)

Module Tags.

(** Where the scan is: in text ([escaped]: the last character was a
  backslash), just behind an opening bracket, inside the name of an
  opening tag or inside the name of a closing tag. *)
Inductive mode :=
| InText (escaped : bool)
| AtBracket (escaped : bool)
| InOpen (name : string)
| InClose (name : string).

Definition is_lower (c : ascii) : bool :=
let n := N_of_ascii c in ((97 <=? n) && (n <=? 122))%N.

(** the characters of the tag names the scan follows: letters and blanks *)
Definition in_name (c : ascii) : bool := is_lower c || Ascii.eqb c " ".

Fixpoint last_lower (s : string) : bool :=
match s with
| EmptyString => false
| String c EmptyString => is_lower c
| String _ s' => last_lower s'
end.

(** the stack without the most recent tag of that name, if there is one *)
Fixpoint pop (name : string) (stack : list string) : option (list string) :=
match stack with
| [] => None
| n :: stack' =>
    if String.eqb n name then Some stack' else cons n <$> pop name stack'
end.

Definition after (c : ascii) : mode := InText (Ascii.eqb c "\").

(** One character further. Only opening tags that the parser is sure to
  take are put on the stack: a name of letters and blanks that starts and
  ends with a letter, behind a bracket that no backslash precedes. Every
  bracket followed by a slash must begin a closing tag of such a name
  that is on the stack, again with no backslash before it; [None] is the
  answer otherwise. *)
Definition step (stack : list string) (m : mode) (c : ascii)
  : option (list string * mode) :=
match m with
| InText escaped =>
    if Ascii.eqb c "[" then Some (stack, AtBracket escaped)
    else Some (stack, after c)
| AtBracket escaped =>
    if Ascii.eqb c "/" then
      if escaped then None else Some (stack, InClose "")
    else if Ascii.eqb c "[" then Some (stack, AtBracket false)
    else if is_lower c && negb escaped then Some (stack, InOpen (String c ""))
    else Some (stack, after c)
| InOpen name =>
    if Ascii.eqb c "]" then
      Some (if last_lower name then name :: stack else stack, InText false)
    else if Ascii.eqb c "[" then Some (stack, AtBracket false)
    else if in_name c then Some (stack, InOpen (name +:+ String c ""))
    else Some (stack, after c)
| InClose name =>
    if Ascii.eqb c "]" then
      match pop name stack with
      | Some stack' => Some (stack', InText false)
      | None => None
      end
    else if in_name c then Some (stack, InClose (name +:+ String c ""))
    else None
end.

Fixpoint scan (stack : list string) (m : mode) (s : string)
  : option (list string * mode) :=
match s with
| EmptyString => Some (stack, m)
| String c s' =>
    match step stack m c with
    | Some (stack', m') => scan stack' m' s'
    | None => None
    end
end.

Definition balanced (s : string) : bool :=
match scan [] (InText false) s with
| Some _ => true
| None => false
end.

End Tags.

(** The markup parser of the terminal library: the message of the
    [MarkupError] it raises on a string, if it raises. A string that
    passes the check above is rendered. *)
Class Rich := {
  markup_error : string → option string;
  markup_error_balanced s : Tags.balanced s = true → markup_error s = None
}.

Section Primitives.
Context {E : Type}.

Definition log (ev : event) : Eff (world E) unit := λ w,
(Returns (), mkWorld (ext w) (console w) (clock w) (sigint w) (trace w ++ [ev])).

(** [time.time()]: the next reading of the clock *)
Definition time_time : Eff (world E) Q := λ w,
(Returns (clock w O),
 mkWorld (ext w) (console w) (λ n, clock w (S n)) (sigint w) (trace w)).

(** [time.sleep(d)]: a pending Ctrl-C surfaces as [KeyboardInterrupt]. *)
Definition time_sleep (d : Q) : Eff (world E) unit := λ w,
match sigint w with
| Some O =>
    (Raises KeyboardInterrupt,
     mkWorld (ext w) (console w) (clock w) None (trace w))
| Some (S n) =>
    (Returns (),
     mkWorld (ext w) (console w) (clock w) (Some n) (trace w ++ [EvSleep d]))
| None =>
    (Returns (),
     mkWorld (ext w) (console w) (clock w) None (trace w ++ [EvSleep d]))
end.

(** Running code that only sees the external state. *)
Definition on_ext {A} (m : Eff E A) : Eff (world E) A := λ w,
let '(r, e') := m (ext w) in
(r, mkWorld e' (console w) (clock w) (sigint w) (trace w)).

(** What rendering [x] raises, if it raises: a [str] is parsed as markup;
  a panel renders its title, then its message; a [Text], an empty line
  and a traceback hold no markup. *)
Definition render_error {parser : Rich} (x : renderable) : option string :=
match x with
| Markup s _ => markup_error s
| Panel message title _ =>
    match markup_error title with
    | Some e => Some e
    | None => markup_error message
    end
| Newline | Text _ _ | Traceback => None
end.

(** [console.print(x)]: a [MarkupError] leaves the rendering, before
  anything of [x] is written. Writing what was rendered to the terminal
  is taken to succeed. *)
Definition console_print {parser : Rich} (x : renderable) : Eff (world E) unit := λ w,
match render_error x with
| Some msg => (Raises (Exception msg), w)
| None =>
    (Returns (),
     mkWorld (ext w) (console w ++ [x]) (clock w) (sigint w) (trace w))
end.

End Primitives.

(** ** [stem_demo/core/processor.py] *)

Module AudioProcessor.

Import Pathlib.

Definition SUPPORTED_EXTENSIONS : gset string :=
{[ ".mp3"; ".wav"; ".flac"; ".ogg"; ".m4a" ]}.

Definition PROCESSING_STEPS : list string :=
[ "Loading audio file";
  "Analyzing frequency spectrum";
  "Separating vocals";
  "Separating drums";
  "Separating bass";
  "Separating other instruments";
  "Writing output files" ].

(** [sorted(s)] of a set of strings: its elements, in whatever order the
  set yields them, sorted by code point. *)
Definition sorted (s : gset string) : list string :=
merge_sort String.le (elements s).

(** [Path.exists()] and [Path.is_file()]: each asks [os.stat] and reads
  the failures that mean absence as [False]; any other [OSError] goes
  on to the caller. *)
Definition path_exists (fs : filesystem) (p : PurePath) : res bool :=
match fs (str p) with
| Missing => Returns false
| StatError msg => Raises (Exception msg)
| _ => Returns true
end.

Definition is_file (fs : filesystem) (p : PurePath) : res bool :=
match fs (str p) with
| RegularFile => Returns true
| StatError msg => Raises (Exception msg)
| _ => Returns false
end.

Definition validate_audio_file (fs : filesystem) (file_path : string)
  : res (bool * string) :=
let path := Path file_path in
found ← path_exists fs path;
if negb found then
  mret (false, "File not found: " +:+ file_path)
else
  (regular ← is_file fs path;
   if negb regular then
     mret (false, "Path is not a file: " +:+ file_path)
   else if negb (bool_decide (PyStr.lower (suffix path) ∈ SUPPORTED_EXTENSIONS)) then
     let supported := PyStr.join ", " (sorted SUPPORTED_EXTENSIONS) in
     mret (false,
           "Unsupported file extension: " +:+ suffix path +:+ PyStr.nl +:+
           "Supported formats: " +:+ supported)
   else mret (true, "")).

Definition get_supported_formats : list string :=
sorted SUPPORTED_EXTENSIONS.

Section ProcessAudio.
Context {E : Type}.

(** [progress_callback(step, progress)], seen from the runner *)
Definition invoke (progress_callback : string → Q → Eff E unit)
(step : string) (progress : Q) : Eff (world E) unit :=
log (EvProgress step progress) ;;
on_ext (progress_callback step progress).

(** the inner loop over [stem_names] *)
Definition append_stems (path : PurePath) (stem_names : list string)
(generated_stems : list string) : list string :=
fold_left
(λ generated_stems stem_name,
   let stem_file :=
     joinpath (parent path)
       (stem path +:+ "_" +:+ stem_name +:+ suffix path) in
   generated_stems ++ [str stem_file])
stem_names generated_stems.

(** one turn of the loop over [enumerate(PROCESSING_STEPS)] *)
Definition process_step (progress_callback : string → Q → Eff E unit)
(total_steps : Z) (path : PurePath) (stem_names : list string)
(it : Z * string) (generated_stems : list string)
: Eff (world E) (list string) :=
let '(i, step) := it in
let progress := (inject_Z (i + 1) / inject_Z total_steps)%Q in
invoke progress_callback step progress ;;
time_sleep (1 # 2) ;;
if i =? total_steps - 1
then mret (append_stems path stem_names generated_stems)
else mret generated_stems.

Definition process_audio (file_path : string)
(progress_callback : string → Q → Eff E unit)
: Eff (world E) result :=
log (EvEnter file_path) ;;
start_time ← time_time;
let total_steps := Z.of_nat (length PROCESSING_STEPS) in
let path := Path file_path in
let stem_names := ["vocals"; "drums"; "bass"; "other"] in
generated_stems ←
for_each (enumerate PROCESSING_STEPS)
  (process_step progress_callback total_steps path stem_names) [];
end_time ← time_time;
let duration := (end_time - start_time)%Q in
let r := mkResult generated_stems duration in
log (EvReturn r) ;;
mret r.

End ProcessAudio.

End AudioProcessor.


(** ** [stem_demo/utils/console.py] and [stem_demo/cli/separate.py] *)

(** The progress bar of the terminal library, as the command uses it. Its
    operations act on the external state and may raise. *)
Class Progress (E : Type) := {
  (** [create_progress_bar().__enter__()] *)
  progress_start : Eff E unit;
  (** [progress.add_task(description, total=total)], returns the task id *)
  progress_add_task : string → Z → Eff E Z;
  (** [progress.update(task, description=..., completed=...)] *)
  progress_update : Z → string → Z → Eff E unit;
  (** [progress.__exit__(...)] *)
  progress_stop : Eff E unit
}.

Module Cli.

Import Pathlib AudioProcessor.

(** [int(x)]: truncation towards zero *)
Definition py_int (x : Q) : Z := Z.quot (Qnum x) (Z.pos (Qden x)).

Definition round_half_even (x : Q) : Z :=
let d := Z.pos (Qden x) in
let fl := Qnum x / d in
let r := Qnum x mod d in
if 2 * r <? d then fl
else if d <? 2 * r then fl + 1
else if Z.even fl then fl else fl + 1.

(** [f"{x:.2f}"] *)
Definition format_2f (x : Q) : string :=
let c := round_half_even (Qabs x * 100) in
let frac := c mod 100 in
(if Qnum x <? 0 then "-" else "") +:+
pretty (c / 100) +:+ "." +:+
(if frac <? 10 then "0" else "") +:+ pretty frac.

(** truth value of an optional string: [None] and [''] are false *)
Definition truthy (o : option string) : bool :=
match o with
| Some s => negb (String.eqb s "")
| None => false
end.

Definition when {S} (b : bool) (m : Eff S unit) : Eff S unit :=
if b then m else mret ().

Section Separate.
Context {E : Type} `{!Progress E} {parser : Rich} (fs : filesystem).

Local Abbreviation M := (Eff (world E)).

Definition print_error (message : string) : M unit :=
console_print (Text ("✗ " +:+ message) "bold red").

Definition print_info (message : string) : M unit :=
console_print (Text ("ℹ " +:+ message) "bold blue").

Definition print_panel (message title style : string) : M unit :=
console_print (Panel message title style).

(** [sys.exit(code)] *)
Definition sys_exit {A} (code : Z) : M A := raise (SystemExit code).

(** the header shown with [--verbose] *)
Definition print_header (audio_file : string) (output_dir : option string)
: M unit :=
console_print
(Markup (PyStr.nl +:+ "[bold cyan]═══ Audio Stem Separator ═══[/bold cyan]"
         +:+ PyStr.nl) "") ;;
print_info ("Input file: " +:+ audio_file) ;;
when (truthy output_dir)
(print_info ("Output directory: " +:+ default "" output_dir)).

(** the nested function [update_progress] *)
Definition update_progress (task : Z) (description : string)
(progress_fraction : Q) : Eff E unit :=
let percentage := py_int (progress_fraction * 100) in
progress_update task ("[cyan]" +:+ description) percentage.

(** the [with create_progress_bar() as progress:] block *)
Definition run_with_progress (audio_file : string) : M result :=
on_ext progress_start ;;
finally
(task ← on_ext (progress_add_task "[cyan]Initializing..." 100);
 process_audio audio_file (update_progress task))
(on_ext progress_stop).

(** what follows the block inside [try] *)
Definition show_result (verbose : bool) (result : result) : M unit :=
console_print Newline ;;
let duration := duration result in
let stems := stems result in
let stem_lines :=
PyStr.join PyStr.nl
  ((λ stem, "[white]- [cyan]" +:+ name (Path stem) +:+ "[/cyan]") <$> stems) in
let success_message :=
"[green]Successfully separated audio into " +:+
  pretty (length stems) +:+ " stems[/green]" +:+ PyStr.nl +:+
"[dim]Processing time: " +:+ format_2f duration +:+
  " seconds[/dim]" +:+ PyStr.nl +:+ PyStr.nl +:+
"[bold]Generated files:[/bold]" +:+ PyStr.nl +:+ stem_lines in
print_panel success_message "✓ Complete" "green" ;;
when verbose
(console_print
   (Markup (PyStr.nl +:+ "[bold]Generated stems (full paths):[/bold]") "") ;;
 for_each (enumerate_from 1 stems)
   (λ '(i, stem) _,
      console_print
        (Markup ("  " +:+ pretty i +:+ ". [cyan]" +:+ stem +:+ "[/cyan]") ""))
   () ;;
 console_print Newline).

Definition try_body (audio_file : string) (verbose : bool) : M unit :=
print_info ("Processing: " +:+ name (Path audio_file)) ;;
console_print Newline ;;
result ← run_with_progress audio_file;
show_result verbose result.

Definition on_keyboard_interrupt : M unit :=
console_print (Markup PyStr.nl "") ;;
print_error "Processing cancelled by user" ;;
sys_exit 130.

Definition on_exception (verbose : bool) (e : string) : M unit :=
console_print (Markup PyStr.nl "") ;;
print_error ("An error occurred during processing: " +:+ e) ;;
when verbose (console_print Traceback) ;;
sys_exit 1.

(** the body of [if not is_valid:] *)
Definition reject (error_message : string) : M unit :=
print_error error_message ;;
let formats := get_supported_formats in
console_print
(Markup (PyStr.nl +:+ "[dim]Supported formats: " +:+
         PyStr.join ", " formats +:+ "[/dim]" +:+ PyStr.nl) "yellow") ;;
sys_exit 1.

(** the function [separate], as click calls it *)
Definition separate (audio_file : string) (output_dir : option string)
(verbose : bool) : M unit :=
when verbose (print_header audio_file output_dir) ;;
validation ← lift (validate_audio_file fs audio_file);
let '(is_valid, error_message) := validation in
when (negb is_valid) (reject error_message) ;;
try_except (try_body audio_file verbose)
on_keyboard_interrupt (on_exception verbose).

(** [click.Path(exists=False, file_okay=..., dir_okay=...).convert(value)],
whether click takes the value: a path that [os.stat] does not reach is
taken unseen; one that is there must be of an allowed kind and
readable ([readable=True] is click's default, [can_read] stands for
[os.access(value, os.R_OK)]). *)
Definition click_path (file_okay dir_okay : bool) (can_read : string → bool)
(value : string) : bool :=
match fs value with
| Missing | StatError _ => true
| RegularFile => file_okay && can_read value
| Directory => dir_okay && can_read value
| Special => can_read value
end.

(** The command the decorators make of the function: click converts the
argument and, when it is given, the option [--output-dir]; a value it
refuses ends the run with a usage error on standard error and status
2, and the function is not called. *)
Definition separate_command (can_read : string → bool) (audio_file : string)
(output_dir : option string) (verbose : bool) : M unit :=
if click_path true true can_read audio_file &&
 from_option (click_path false true can_read) true output_dir
then separate audio_file output_dir verbose
else sys_exit 2.

End Separate.

(** The status the process ends with: a normal return of the command and
  [SystemExit(code)] are what the command itself decides; an exception
  that leaves the command uncaught ends the process with status 1. *)
Definition exit_code (r : res unit) : Z :=
match r with
| Returns _ => 0
| Raises (SystemExit code) => code
| Raises KeyboardInterrupt => 1
| Raises (Exception _) => 1
end.

End Cli.

(** ** Test doubles *)

(** A callback with a list as its state that writes down what it is given. *)
Definition recorder : string → Q → Eff (list (string * Q)) unit :=
  λ step f e, (Returns (), e ++ [(step, f)]).

(** A progress bar that keeps the description and the completed amount of
    its single task, and never fails. *)
Record bar := mkBar { running : bool; description : string; completed : Z }.

Global Instance bar_progress : Progress bar := {|
  progress_start := λ b, (Returns (), mkBar true (description b) (completed b));
  progress_add_task := λ d _ b, (Returns 0, mkBar (running b) d 0);
  progress_update := λ _ d c b, (Returns (), mkBar (running b) d c);
  progress_stop := λ b, (Returns (), mkBar false (description b) (completed b))
|}.

(** A progress bar whose update fails with the given exception once the
    completed amount reaches [limit]. *)
Definition failing_bar (e : exn) (limit : Z) : Progress bar := {|
  progress_start := λ b, (Returns (), mkBar true (description b) (completed b));
  progress_add_task := λ d _ b, (Returns 0, mkBar (running b) d 0);
  progress_update := λ _ d c b,
    if limit <=? c then (Raises e, b) else (Returns (), mkBar (running b) d c);
  progress_stop := λ b, (Returns (), mkBar false (description b) (completed b))
|}.

(** A parser that refuses whatever the check does not pass. *)
Lemma strict_balanced s :
  Tags.balanced s = true →
  (if Tags.balanced s then None else Some "closing tag doesn't match any open tag")
  = None (A := string).
Proof. by intros ->. Qed.

Global Instance strict_rich : Rich := {|
  markup_error s :=
    if Tags.balanced s then None
    else Some "closing tag doesn't match any open tag";
  markup_error_balanced := strict_balanced
|}.

(** a clock whose readings are 3.5017 apart *)
Definition clock0 : nat → Q :=
  λ n, (1000 + (35017 # 10000) * inject_Z (Z.of_nat n))%Q.

Definition world0 {E} (e : E) : world E := mkWorld e [] clock0 None [].

Definition bar0 : bar := mkBar false "" 0.

(** a file system with a music directory and a few regular files in it *)
Definition fs0 : filesystem := λ p,
  if String.eqb p "/music" then Directory
  else if bool_decide (p ∈ [ "/music/song.mp3"; "/music/LIVE.FlaC";
                             "/music/notes.txt"; "/music/.mp3";
                             "/music/song"; "/music/[/b].mp3" ])
       then RegularFile
  else if String.eqb p "/locked/song.mp3"
       then StatError "[Errno 13] Permission denied: '/locked/song.mp3'"
  else Missing.

(** every path may be read, but for one file *)
Definition can_read0 : string → bool :=
  λ p, negb (String.eqb p "/music/secret.mp3").
(** * Vocabulary of the statements *)

Section PathVocabulary.
Import Pathlib.

(** What the parser produces: one of the three roots, and components
  that are not empty, not ["."] and hold no separator. *)
Definition good_part (x : string) : Prop :=
keep x = true ∧ PyStr.contains sep x = false.

Definition normal (p : PurePath) : Prop :=
(root p = "" ∨ root p = "/" ∨ root p = "//") ∧ Forall good_part (parts p).

(** does not start with a separator *)
Definition no_lead (s : string) : bool :=
match s with
| String a _ => negb (Ascii.eqb a sep)
| EmptyString => true
end.

End PathVocabulary.

Section StemVocabulary.
Import Pathlib AudioProcessor.

(** [f"{path.stem}_{stem_name}{path.suffix}"] *)
Definition stem_filename (p : PurePath) (label : string) : string :=
stem p +:+ "_" +:+ label +:+ suffix p.

(** [str(path.parent / f"{path.stem}_{stem_name}{path.suffix}")] *)
Definition stem_file (file_path label : string) : string :=
str (joinpath (parent (Path file_path))
       (stem_filename (Path file_path) label)).

Definition expected_stems (file_path : string) : list string :=
stem_file file_path <$> ["vocals"; "drums"; "bass"; "other"].

End StemVocabulary.

(** The callback invoked on a list of arguments, one after the other. *)
Fixpoint run_calls {E} (cb : string → Q → Eff E unit)
    (calls : list (string * Q)) : Eff E unit :=
  match calls with
  | [] => mret ()
  | (step, f) :: calls' => cb step f ;; run_calls cb calls'
  end.

(** The seven stages with their fractions. *)
Definition expected_calls : list (string * Q) :=
  [ ("Loading audio file", 1 # 7);
    ("Analyzing frequency spectrum", 2 # 7);
    ("Separating vocals", 3 # 7);
    ("Separating drums", 4 # 7);
    ("Separating bass", 5 # 7);
    ("Separating other instruments", 6 # 7);
    ("Writing output files", 7 # 7) ].

Section LoopVocabulary.
Import Pathlib AudioProcessor.
Context (total : Z) (path : PurePath) (names : list string).

Definition call_of (it : Z * string) : string * Q :=
(it.2, (inject_Z (it.1 + 1) / inject_Z total)%Q).

Definition events_of (it : Z * string) : list event :=
[EvProgress it.2 (inject_Z (it.1 + 1) / inject_Z total)%Q; EvSleep (1 # 2)].

Definition acc_after (acc : list string) (it : Z * string) : list string :=
if it.1 =? total - 1 then append_stems path names acc else acc.

End LoopVocabulary.

(** The progress calls and the returns among the events of a run. *)
Definition progress_calls (t : list event) : list (string * Q) :=
  omap (λ ev, match ev with EvProgress step f => Some (step, f) | _ => None end) t.

Definition returns_of (t : list event) : list result :=
  omap (λ ev, match ev with EvReturn r => Some r | _ => None end) t.

(** The events between entering and returning when nothing fails. *)
Definition run_events : list event :=
  flat_map (λ c, [EvProgress c.1 c.2; EvSleep (1 # 2)]) expected_calls.

(** An extension matches a supported one when letter case is ignored. *)
Definition supported_ci (ext : string) : Prop :=
  ∃ e, e ∈ AudioProcessor.SUPPORTED_EXTENSIONS ∧ PyStr.lower ext = PyStr.lower e.

(** The supported extensions in lexicographic order, and the reason given
    for an extension that is not among them. *)
Definition sorted_formats : list string :=
  [".flac"; ".m4a"; ".mp3"; ".ogg"; ".wav"].

Definition unsupported_reason (ext : string) : string :=
  "Unsupported file extension: " +:+ ext +:+ PyStr.nl +:+
  "Supported formats: .flac, .m4a, .mp3, .ogg, .wav".

(** ** Vocabulary for the command *)

Section CliVocabulary.
Import Pathlib AudioProcessor Cli.
Context {E : Type} `{!Progress E} {parser : Rich}.

(** What [--verbose] prints before anything else. *)
Definition header_items (audio_file : string) (output_dir : option string)
  (verbose : bool) : list renderable :=
if verbose then
  [ Markup (PyStr.nl +:+ "[bold cyan]═══ Audio Stem Separator ═══[/bold cyan]"
            +:+ PyStr.nl) "";
    Text ("ℹ Input file: " +:+ audio_file) "bold blue" ] ++
  (if truthy output_dir
   then [Text ("ℹ Output directory: " +:+ default "" output_dir) "bold blue"]
   else [])
else [].

(** What is printed when the file is turned down. *)
Definition reject_items (error_message : string) : list renderable :=
[ Text ("✗ " +:+ error_message) "bold red";
  Markup (PyStr.nl +:+ "[dim]Supported formats: .flac, .m4a, .mp3, .ogg, .wav[/dim]"
          +:+ PyStr.nl) "yellow" ].

(** [separate] after its header. *)
Definition check_and_run (fs : filesystem) (audio_file : string)
  (verbose : bool) : Eff (world E) unit :=
validation ← lift (validate_audio_file fs audio_file);
let '(is_valid, error_message) := validation in
when (negb is_valid) (reject error_message) ;;
try_except (try_body audio_file verbose)
  on_keyboard_interrupt (on_exception verbose).

(** Two worlds that are the same but for what was printed first: their
  consoles are [c1] and [c2] followed by the same output. *)
Definition console_sim (c1 c2 : list renderable) (w1 w2 : world E) : Prop :=
ext w1 = ext w2 ∧ clock w1 = clock w2 ∧ sigint w1 = sigint w2 ∧
trace w1 = trace w2 ∧
∃ rest, console w1 = c1 ++ rest ∧ console w2 = c2 ++ rest.

(** A computation that cannot tell such worlds apart. *)
Definition blind {A} (m : Eff (world E) A) : Prop :=
∀ c1 c2 w1 w2,
  console_sim c1 c2 w1 w2 →
  (m w1).1 = (m w2).1 ∧ console_sim c1 c2 (m w1).2 (m w2).2.

(** A computation that only adds events satisfying [P] to the trace and
  whose value, when it returns, satisfies [Qv]. *)
Definition traces {A} (P : event → Prop) (Qv : A → Prop)
  (m : Eff (world E) A) : Prop :=
∀ w,
  (∃ new, trace (m w).2 = trace w ++ new ∧ Forall P new) ∧
  (∀ a, (m w).1 = Returns a → Qv a).

(** Every result returned during a run has the stems of this input. *)
Definition returns_stems_of (audio_file : string) (ev : event) : Prop :=
match ev with
| EvReturn r => stems r = expected_stems audio_file
| _ => True
end.

End CliVocabulary.

(** ** Vocabulary for interrupted and failing runs *)

(** No Ctrl-C during the next [n] pauses. *)
Definition quiet_for (n : nat) (s : option nat) : Prop :=
  match s with
  | Some k => (n ≤ k)%nat
  | None => True
  end.

(** The pending Ctrl-C after [n] pauses went by. *)
Definition sigint_after (n : nat) (s : option nat) : option nat :=
  (λ k, (k - n)%nat) <$> s.

(** The progress call and the pause of each of the given stages. *)
Definition events_upto (calls : list (string * Q)) : list event :=
  flat_map (λ c, [EvProgress c.1 c.2; EvSleep (1 # 2)]) calls.

(** ** Vocabulary for what the command prints and asks of the progress bar *)



(** The clock after [k] readings. *)
Definition clock_from (k : nat) (c : nat → Q) : nat → Q := λ n, c (k + n)%nat.

(** The duration a run reports: the second reading less the first. *)
Definition duration_read (c : nat → Q) : Q := (c 1%nat - c 0%nat)%Q.

Section OutputVocabulary.
Import Pathlib AudioProcessor Cli.
Context {E : Type} `{!Progress E} {parser : Rich}.

(** The world with more printed. *)
Definition add_console (w : world E) (items : list renderable) : world E :=
mkWorld (ext w) (console w ++ items) (clock w) (sigint w) (trace w).

(** A computation that prints nothing. *)
Definition silent {A} (m : Eff (world E) A) : Prop :=
∀ w, console (m w).2 = console w.

(** Of items handed to [console.print] one after the other, those that
  reach the terminal: the ones before the first that rich refuses. *)
Fixpoint printed (items : list renderable) : list renderable :=
match items with
| [] => []
| x :: items' =>
    match render_error x with
    | None => x :: printed items'
    | Some _ => []
    end
end.

(** The message rich refuses the first such item with, if it refuses one. *)
Fixpoint refused (items : list renderable) : option string :=
match items with
| [] => None
| x :: items' =>
    match render_error x with
    | None => refused items'
    | Some msg => Some msg
    end
end.

(** A computation that hands the given items to [console.print] one after
  the other, and does nothing else: it returns when all are printed and
  raises the [MarkupError] of the first that is refused. *)
Definition prints (items : list renderable) (m : Eff (world E) unit) : Prop :=
∀ w, m w =
     (match refused items with
      | None => Returns ()
      | Some msg => Raises (Exception msg)
      end,
      add_console w (printed items)).

(** The updates of a task, one after the other. *)
Fixpoint run_updates (task : Z) (l : list (string * Z)) : Eff E unit :=
match l with
| [] => mret ()
| (description, completed) :: l' =>
    progress_update task description completed ;; run_updates task l'
end.

(** The description and the percentage of each stage. *)
Definition bar_updates : list (string * Z) :=
[ ("[cyan]Loading audio file", 14);
  ("[cyan]Analyzing frequency spectrum", 28);
  ("[cyan]Separating vocals", 42);
  ("[cyan]Separating drums", 57);
  ("[cyan]Separating bass", 71);
  ("[cyan]Separating other instruments", 85);
  ("[cyan]Writing output files", 100) ].

(** What a run that goes well asks of the progress bar, in order. *)
Definition bar_script : Eff E unit :=
progress_start ;;
task ← progress_add_task "[cyan]Initializing..." 100;
run_updates task bar_updates ;;
progress_stop.

(** What the progress bar is asked up to and with the first [n] updates;
  the value is the task. *)
Definition bar_prefix (n : nat) : Eff E Z :=
progress_start ;;
task ← progress_add_task "[cyan]Initializing..." 100;
run_updates task (take n bar_updates) ;;
mret task.

(** The lines of the panel for the stems of an input. *)
Definition stem_lines_of (audio_file : string) : string :=
PyStr.join PyStr.nl
  ((λ label, "[white]- [cyan]" +:+ stem_filename (Path audio_file) label
             +:+ "[/cyan]") <$> ["vocals"; "drums"; "bass"; "other"]).

(** The text of the panel for an input and a duration. *)
Definition panel_text (audio_file : string) (seconds : Q) : string :=
"[green]Successfully separated audio into 4 stems[/green]" +:+ PyStr.nl +:+
"[dim]Processing time: " +:+ format_2f seconds +:+ " seconds[/dim]"
  +:+ PyStr.nl +:+ PyStr.nl +:+
"[bold]Generated files:[/bold]" +:+ PyStr.nl +:+ stem_lines_of audio_file.

(** The numbered full paths shown with [--verbose]. *)
Definition path_lines (stems : list string) : list renderable :=
(λ it : Z * string,
   Markup ("  " +:+ pretty it.1 +:+ ". [cyan]" +:+ it.2 +:+ "[/cyan]") "")
<$> enumerate_from 1 stems.

(** What is printed after a run that went well. *)
Definition result_items (audio_file : string) (verbose : bool) (r : result)
  : list renderable :=
[ Newline; Panel (panel_text audio_file (duration r)) "✓ Complete" "green" ] ++
(if verbose
 then [Markup (PyStr.nl +:+ "[bold]Generated stems (full paths):[/bold]") ""]
      ++ path_lines (stems r) ++ [Newline]
 else []).

(** What the two handlers print. *)
Definition interrupt_items : list renderable :=
[ Markup PyStr.nl ""; Text "✗ Processing cancelled by user" "bold red" ].

Definition error_items (verbose : bool) (msg : string) : list renderable :=
[ Markup PyStr.nl "";
  Text ("✗ An error occurred during processing: " +:+ msg) "bold red" ] ++
(if verbose then [Traceback] else []).

(** What is printed once the file is accepted, by outcome of the progress
  block: after a result, the success output as far as rich takes it and,
  if it refuses part of it, what the handler prints for that error. *)
Definition outcome_items (audio_file : string) (verbose : bool)
  (o : res result) : list renderable :=
match o with
| Returns r =>
    printed (result_items audio_file verbose r) ++
    match refused (result_items audio_file verbose r) with
    | None => []
    | Some msg => error_items verbose msg
    end
| Raises KeyboardInterrupt => interrupt_items
| Raises (Exception msg) => error_items verbose msg
| Raises (SystemExit _) => []
end.

(** How the command ends once the file is accepted, by outcome of the
  progress block. *)
Definition command_outcome (audio_file : string) (verbose : bool)
  (o : res result) : res unit :=
match o with
| Returns r =>
    match refused (result_items audio_file verbose r) with
    | None => Returns ()
    | Some _ => Raises (SystemExit 1)
    end
| Raises KeyboardInterrupt => Raises (SystemExit 130)
| Raises (Exception _) => Raises (SystemExit 1)
| Raises (SystemExit c) => Raises (SystemExit c)
end.

Definition is_panel (x : renderable) : bool :=
match x with Panel _ _ _ => true | _ => false end.

Definition is_traceback (x : renderable) : bool :=
match x with Traceback => true | _ => false end.

End OutputVocabulary.

(** ** More test doubles *)

(** A recording callback that raises on its call of index [limit]. *)
Definition failing_recorder (limit : nat)
    : string → Q → Eff (list (string * Q)) unit :=
  λ step f e,
    if (length e =? limit)%nat then (Raises (Exception "callback failed"), e)
    else (Returns (), e ++ [(step, f)]).

(** A progress bar that cannot start. *)
Definition broken_bar : Progress bar := {|
  progress_start := λ b, (Raises (Exception "no terminal"), b);
  progress_add_task := λ d _ b, (Returns 0, mkBar (running b) d 0);
  progress_update := λ _ d c b, (Returns (), mkBar (running b) d c);
  progress_stop := λ b, (Returns (), mkBar false (description b) (completed b))
|}.

(** a file system where the stems of [/music/song.mp3] exist as well *)
Definition fs1 : filesystem := λ p,
  if bool_decide (p ∈ [ "/music/song.mp3"; "/music/song_vocals.mp3";
                        "/music/song_drums.mp3"; "/music/song_bass.mp3";
                        "/music/song_other.mp3" ])
  then RegularFile
  else fs0 p.

(** the result of an undisturbed run that starts at [world0] *)
Definition result0 (file_path : string) : result :=
  mkResult (expected_stems file_path) (clock0 1%nat - clock0 0%nat)%Q.
(** * Properties *)

(** ** Strings *)

Section StringFacts.

Lemma app_cons a s t : String a s +:+ t = String a (s +:+ t).
Proof. reflexivity. Qed.

Lemma app_empty_l s : "" +:+ s = s.
Proof. reflexivity. Qed.

Lemma app_empty_r s : s +:+ "" = s.
Proof. induction s as [|a s IH]; [done|]. by rewrite app_cons, IH. Qed.

Lemma app_assoc' s t u : (s +:+ t) +:+ u = s +:+ t +:+ u.
Proof. induction s as [|a s IH]; [done|]. by rewrite !app_cons, IH. Qed.

Lemma app_eq_empty s t : s +:+ t = "" → s = "" ∧ t = "".
Proof. destruct s; [done|]. by rewrite app_cons. Qed.

Lemma length_app s t :
String.length (s +:+ t) = (String.length s + String.length t)%nat.
Proof. induction s as [|a s IH]; [done|]. rewrite app_cons. simpl. by rewrite IH. Qed.

Lemma eqb_false_iff s t : String.eqb s t = false ↔ s ≠ t.
Proof. apply String.eqb_neq. Qed.

Lemma contains_app c s t :
PyStr.contains c (s +:+ t) = PyStr.contains c s || PyStr.contains c t.
Proof.
induction s as [|a s IH]; [done|].
rewrite app_cons. simpl. rewrite IH. by rewrite orb_assoc.
Qed.

Lemma contains_substring c s : ∀ n m,
PyStr.contains c s = false → PyStr.contains c (String.substring n m s) = false.
Proof.
induction s as [|a s IH]; intros n m Hs.
- by destruct n, m.
- simpl in Hs. apply orb_false_iff in Hs as [Ha Hs].
  destruct n as [|n]; simpl.
  + destruct m as [|m]; [done|]. simpl. rewrite Ha. by apply IH.
  + by apply IH.
Qed.

Lemma substring_split s : ∀ n, (n ≤ String.length s)%nat →
String.substring 0 n s +:+ String.substring n (String.length s - n) s = s.
Proof.
induction s as [|a s IH]; intros n Hn.
- by destruct n.
- destruct n as [|n]; simpl.
  + rewrite app_empty_l. f_equal.
    clear. induction s as [|b s IH]; [done|]. simpl. by rewrite IH.
  + rewrite app_cons. f_equal. apply IH. simpl in Hn. lia.
Qed.

(** [split] and [join] *)

Lemma split_nonempty c s : PyStr.split c s ≠ [].
Proof.
destruct s as [|a s]; [done|]. simpl.
destruct (Ascii.eqb a c); [done|]. by destruct (PyStr.split c s).
Qed.

Lemma split_no_sep c s : PyStr.contains c s = false → PyStr.split c s = [s].
Proof.
induction s as [|a s IH]; [done|]. simpl. intros H.
apply orb_false_iff in H as [Ha Hs]. rewrite Ha, (IH Hs). done.
Qed.

Lemma split_elem_no_sep c s x :
x ∈ PyStr.split c s → PyStr.contains c x = false.
Proof.
revert x. induction s as [|a s IH]; intros x; simpl.
- by intros ->%list_elem_of_singleton.
- destruct (Ascii.eqb a c) eqn:Ha.
  + intros [->|Hx]%elem_of_cons; [done|]. by apply IH.
  + pose proof (split_nonempty c s) as Hne.
    destruct (PyStr.split c s) as [|w ws]; [done|].
    intros [->|Hx]%elem_of_cons.
    * simpl. rewrite Ha. apply IH. by left.
    * apply IH. by right.
Qed.

Lemma split_app_sep c x rest :
PyStr.contains c x = false →
PyStr.split c (x +:+ String c rest) = x :: PyStr.split c rest.
Proof.
induction x as [|a x IH]; intros H.
- rewrite app_empty_l. simpl. by rewrite Ascii.eqb_refl.
- simpl in H. apply orb_false_iff in H as [Ha Hx].
  rewrite app_cons. simpl. rewrite Ha, (IH Hx). done.
Qed.

Lemma split_join c l :
l ≠ [] → Forall (λ x, PyStr.contains c x = false) l →
PyStr.split c (PyStr.join (String c "") l) = l.
Proof.
intros Hne Hl. induction Hl as [|x l Hx Hl IH]; [done|].
destruct l as [|y l].
- simpl. by apply split_no_sep.
- unfold PyStr.join in *. simpl String.concat.
  rewrite app_cons, app_empty_l.
  rewrite split_app_sep by done. f_equal. by apply IH.
Qed.

Lemma join_snoc sep l x :
l ≠ [] → PyStr.join sep (l ++ [x]) = PyStr.join sep l +:+ sep +:+ x.
Proof.
unfold PyStr.join. induction l as [|y l IH]; [done|]. intros _.
destruct l as [|z l].
- done.
- change (String.concat sep ((y :: z :: l) ++ [x]))
    with (y +:+ sep +:+ String.concat sep ((z :: l) ++ [x])).
  rewrite IH by done.
  change (String.concat sep (y :: z :: l))
    with (y +:+ sep +:+ String.concat sep (z :: l)).
  by rewrite !app_assoc'.
Qed.

(** [rfind] *)

Lemma rfind_from_bounds c s : ∀ i last,
-1 ≤ last < i → -1 ≤ PyStr.rfind_from c s i last < i + PyStr.len s.
Proof.
unfold PyStr.len.
induction s as [|a s IH]; intros i last H; simpl.
- lia.
- specialize (IH (i + 1) (if Ascii.eqb a c then i else last)).
  destruct (Ascii.eqb a c); lia.
Qed.

Lemma rfind_from_absent c s : ∀ i last,
PyStr.contains c s = false → PyStr.rfind_from c s i last = last.
Proof.
induction s as [|a s IH]; intros i last H; [done|]. simpl in *.
apply orb_false_iff in H as [-> Hs]. by apply IH.
Qed.

Lemma rfind_absent c s : PyStr.contains c s = false → PyStr.rfind c s = -1.
Proof. apply rfind_from_absent. Qed.

Lemma rfind_leading c s :
PyStr.contains c s = false → PyStr.rfind c (String c s) = 0.
Proof.
intros H. unfold PyStr.rfind. simpl. rewrite Ascii.eqb_refl.
by apply rfind_from_absent.
Qed.

Lemma rfind_bounds c s : -1 ≤ PyStr.rfind c s < PyStr.len s.
Proof. pose proof (rfind_from_bounds c s 0 (-1)). unfold PyStr.rfind. lia. Qed.

End StringFacts.

(** ** Paths *)

Section PathFacts.
Import Pathlib.

Lemma keep_nonempty x : keep x = true → x ≠ "".
Proof. by intros H ->. Qed.

Lemma good_part_no_lead x : good_part x → no_lead x = true.
Proof.
intros [_ Hs]. destruct x as [|a x]; [done|]. simpl in *.
apply orb_false_iff in Hs as [-> _]. done.
Qed.

Lemma no_lead_app x y : x ≠ "" → no_lead x = true → no_lead (x +:+ y) = true.
Proof. by destruct x. Qed.

Lemma lstrip_no_lead s : no_lead s = true → PyStr.lstrip sep s = s.
Proof.
destruct s as [|a s]; [done|]. simpl.
intros H%negb_true_iff. by rewrite H.
Qed.

Lemma lstrip_result s : no_lead (PyStr.lstrip sep s) = true.
Proof.
induction s as [|a s IH]; [done|]. simpl.
destruct (Ascii.eqb a sep) eqn:Ha; [done|]. simpl. by rewrite Ha.
Qed.

Lemma splitroot_root s :
(splitroot s).1 = "" ∨ (splitroot s).1 = "/" ∨ (splitroot s).1 = "//".
Proof.
unfold splitroot. destruct s as [|a s]; [by left|].
destruct (Ascii.eqb a sep); [|by left].
destruct (_ =? 2); simpl; auto.
Qed.

Lemma splitroot_render r body :
r = "" ∨ r = "/" ∨ r = "//" → no_lead body = true →
splitroot (r +:+ body) = (r, body).
Proof.
intros Hr Hb. destruct Hr as [->|[->| ->]].
- rewrite app_empty_l. destruct body as [|a body]; [done|].
  simpl in *. apply negb_true_iff in Hb. by rewrite Hb.
- unfold splitroot. rewrite app_cons, app_empty_l.
  rewrite Ascii.eqb_refl.
  change (PyStr.lstrip sep (String "/" body)) with (PyStr.lstrip sep body).
  rewrite lstrip_no_lead by done.
  unfold PyStr.len. simpl String.length.
  destruct (_ =? 2) eqn:H; [|done]. apply Z.eqb_eq in H. lia.
- unfold splitroot. rewrite !app_cons, app_empty_l.
  rewrite Ascii.eqb_refl.
  change (PyStr.lstrip sep (String "/" (String "/" body)))
    with (PyStr.lstrip sep body).
  rewrite lstrip_no_lead by done.
  unfold PyStr.len. simpl String.length.
  destruct (_ =? 2) eqn:H; [done|]. apply Z.eqb_neq in H. lia.
Qed.

Lemma Path_normal s : normal (Path s).
Proof.
unfold Path. pose proof (splitroot_root s) as Hr.
destruct (splitroot s) as [r rel]. split; [done|]. simpl.
apply Forall_forall. intros x [Hk Hx]%list_elem_of_filter. split; [done|].
by eapply split_elem_no_sep.
Qed.

Lemma join_good_nonempty x l :
good_part x → PyStr.join "/" (x :: l) ≠ "".
Proof.
intros [Hk _]. apply keep_nonempty in Hk. unfold PyStr.join.
destruct l; simpl; [done|].
intros [H _]%app_eq_empty. done.
Qed.

Lemma join_good_no_lead l :
Forall good_part l → no_lead (PyStr.join "/" l) = true.
Proof.
destruct 1 as [|x l Hx Hl]; [done|]. unfold PyStr.join.
destruct l; simpl.
- by apply good_part_no_lead.
- apply no_lead_app; [apply keep_nonempty, Hx|by apply good_part_no_lead].
Qed.

Lemma filter_keep_good l :
Forall good_part l → filter (λ x, keep x = true) l = l.
Proof.
induction 1 as [|x l [Hx _] Hl IH]; [done|].
rewrite filter_cons_True by done. by rewrite IH.
Qed.

(** Printing a parsed path and parsing it again gives the same path. *)
Lemma Path_str p : normal p → Path (str p) = p.
Proof.
destruct p as [r ps]. intros [Hr Hps]. simpl in *. unfold str. simpl.
destruct (String.eqb (r +:+ PyStr.join "/" ps) "") eqn:Hs.
- apply String.eqb_eq, app_eq_empty in Hs as [-> Hj].
  destruct ps as [|x ps]; [done|].
  inversion Hps; subst. by apply join_good_nonempty in Hj.
- unfold Path. rewrite splitroot_render by auto using join_good_no_lead.
  f_equal. destruct ps as [|x ps]; [done|].
  pose proof (split_join sep (x :: ps)) as Hsj. unfold sep in *.
  rewrite Hsj; [by apply filter_keep_good|done|].
  eapply Forall_impl; [done|]. by intros ? [_ ?].
Qed.

Lemma parent_normal p : normal p → normal (parent p).
Proof.
intros [Hr Hps]. split; [done|]. simpl.
apply Forall_forall. intros x Hx. rewrite Forall_forall in Hps.
apply Hps. clear -Hx. induction (parts p) as [|y l IH]; [done|].
destruct l as [|z l]; [by apply elem_of_nil in Hx|].
change (removelast (y :: z :: l)) with (y :: removelast (z :: l)) in Hx.
apply elem_of_cons in Hx as [->|Hx]; [by left|]. right. by apply IH.
Qed.

Lemma name_no_sep p : normal p → PyStr.contains sep (name p) = false.
Proof.
intros [_ Hps]. unfold name.
induction Hps as [|x l Hx Hl IH]; [done|].
destruct l; [apply Hx|apply IH].
Qed.

Lemma suffix_no_sep p : normal p → PyStr.contains sep (suffix p) = false.
Proof.
intros Hp. unfold suffix. destruct (_ && _); [|done].
by apply contains_substring, name_no_sep.
Qed.

Lemma stem_no_sep p : normal p → PyStr.contains sep (stem p) = false.
Proof.
intros Hp. unfold stem. destruct (_ && _); [|by apply name_no_sep].
by apply contains_substring, name_no_sep.
Qed.

(** The stem and the suffix are the two halves of the name. *)
Lemma stem_suffix_name p : stem p +:+ suffix p = name p.
Proof.
unfold stem, suffix. pose proof (rfind_bounds dot (name p)) as Hb.
destruct (_ && _) eqn:Hc; [|apply app_empty_r].
apply andb_true_iff in Hc as [H0%Z.ltb_lt H1%Z.ltb_lt].
unfold PyStr.slice_to, PyStr.slice_from. apply substring_split.
unfold PyStr.len in *. lia.
Qed.

(** The file name of a stem is a single good component. *)
Lemma stem_name_good p label :
normal p → PyStr.contains sep label = false →
good_part (stem p +:+ "_" +:+ label +:+ suffix p).
Proof.
intros Hp Hl. split.
- assert (PyStr.contains "_" (stem p +:+ "_" +:+ label +:+ suffix p) = true) as Hu.
  { rewrite !contains_app. simpl. by rewrite orb_true_r. }
  unfold keep.
  destruct (String.eqb _ "") eqn:H1.
  { apply String.eqb_eq in H1. by rewrite H1 in Hu. }
  destruct (String.eqb _ ".") eqn:H2.
  { apply String.eqb_eq in H2. by rewrite H2 in Hu. }
  done.
- rewrite !contains_app, stem_no_sep, suffix_no_sep, Hl by done. done.
Qed.

Lemma Path_single x : good_part x → Path x = mkPath "" [x].
Proof.
intros Hx. transitivity (Path (str (mkPath "" [x]))).
- f_equal. unfold str. simpl. rewrite app_empty_l.
  destruct (String.eqb x "") eqn:H; [|done].
  apply String.eqb_eq in H. destruct Hx as [Hk _]. by subst.
- apply Path_str. split; [by left|]. by constructor.
Qed.

Lemma str_nonempty p :
root p +:+ PyStr.join "/" (parts p) ≠ "" →
str p = root p +:+ PyStr.join "/" (parts p).
Proof. intros H. unfold str. by rewrite (proj2 (String.eqb_neq _ _) H). Qed.

Lemma removelast_snoc {A} (l : list A) x : removelast (l ++ [x]) = l.
Proof. apply removelast_last. Qed.

Lemma last_snoc' (l : list string) x d : List.last (l ++ [x]) d = x.
Proof. apply last_last. Qed.

End PathFacts.

(** ** The stems *)

Section StemFacts.
Import Pathlib AudioProcessor.

Lemma append_stems_four file_path :
append_stems (Path file_path) ["vocals"; "drums"; "bass"; "other"] [] =
expected_stems file_path.
Proof. reflexivity. Qed.

Lemma stem_path_normal file_path label :
PyStr.contains sep label = false →
normal (mkPath (root (Path file_path))
          (removelast (parts (Path file_path))
             ++ [stem_filename (Path file_path) label])).
Proof.
intros Hl. pose proof (Path_normal file_path) as Hn.
pose proof (parent_normal _ Hn) as [Hr Hps].
split; [done|]. simpl in *. apply Forall_app. split; [done|].
constructor; [|done]. by apply stem_name_good.
Qed.

Lemma stem_file_eq file_path label :
PyStr.contains sep label = false →
stem_file file_path label =
str (mkPath (root (Path file_path))
       (removelast (parts (Path file_path))
          ++ [stem_filename (Path file_path) label])).
Proof.
intros Hl. unfold stem_file, joinpath.
rewrite Path_single by (apply stem_name_good; auto using Path_normal).
done.
Qed.

(** Parsing a stem gives the parent of the input and the stem's name. *)
Lemma stem_file_parse file_path label :
PyStr.contains sep label = false →
parent (Path (stem_file file_path label)) = parent (Path file_path) ∧
name (Path (stem_file file_path label)) =
  stem_filename (Path file_path) label.
Proof.
intros Hl. rewrite stem_file_eq by done.
rewrite Path_str by (by apply stem_path_normal).
unfold parent, name. simpl. by rewrite removelast_snoc, last_snoc'.
Qed.

(** The stem as a string: below a directory of the input it is the
  parent, a slash and the name; with no directory it is the root, if
  any, and the name. *)
Lemma stem_file_string file_path label :
PyStr.contains sep label = false →
(parts (parent (Path file_path)) ≠ [] →
   stem_file file_path label =
   str (parent (Path file_path)) +:+ "/" +:+
   stem_filename (Path file_path) label) ∧
(parts (parent (Path file_path)) = [] →
   stem_file file_path label =
   root (Path file_path) +:+ stem_filename (Path file_path) label).
Proof.
intros Hl. rewrite stem_file_eq by done.
pose proof (stem_path_normal file_path label Hl) as [_ Hps].
pose proof (Path_normal file_path) as Hn.
apply parent_normal in Hn as [_ Hpp].
simpl in *. set (P := Path file_path) in *.
set (key := stem_filename P label) in *.
assert (key ≠ "") as Hkey.
{ apply Forall_app in Hps as [_ Hk]. inversion Hk as [|?? [Hk' _]]; subst.
  by apply keep_nonempty. }
split; intros Hd.
- destruct (removelast (parts P)) as [|x l] eqn:Hrl; [done|].
  inversion Hpp as [|?? Hx Hl']; subst.
  pose proof (join_good_nonempty x l Hx) as Hj.
  rewrite !str_nonempty; cbn [root parts parent]; rewrite ?Hrl.
  + rewrite join_snoc by done. by rewrite !app_assoc'.
  + by intros [_ ?]%app_eq_empty.
  + rewrite join_snoc by done.
    by intros [_ [? _]%app_eq_empty]%app_eq_empty.
- rewrite Hd. rewrite str_nonempty; [done|]. cbn [root parts app].
  by intros [_ ?]%app_eq_empty.
Qed.

End StemFacts.


(** ** More on strings and names *)

Section NameFacts.
Import Pathlib.

Lemma len_app s t : PyStr.len (s +:+ t) = PyStr.len s + PyStr.len t.
Proof. unfold PyStr.len. rewrite length_app. lia. Qed.

Lemma len_nonneg s : 0 ≤ PyStr.len s.
Proof. unfold PyStr.len. lia. Qed.

Lemma len_zero s : PyStr.len s = 0 → s = "".
Proof. unfold PyStr.len. by destruct s. Qed.

Lemma app_inj_r s1 s2 t : s1 +:+ t = s2 +:+ t → s1 = s2.
Proof.
revert s2. induction s1 as [|a s1 IH]; intros [|b s2] H.
- done.
- apply (f_equal PyStr.len) in H. rewrite app_cons in H.
  change (PyStr.len ("" +:+ t)) with (PyStr.len t) in H.
  unfold PyStr.len in H. simpl in H. rewrite length_app in H. lia.
- apply (f_equal PyStr.len) in H. rewrite app_cons in H.
  change (PyStr.len ("" +:+ t)) with (PyStr.len t) in H.
  unfold PyStr.len in H. simpl in H. rewrite length_app in H. lia.
- rewrite !app_cons in H. injection H as -> H. f_equal. by apply IH.
Qed.

Lemma substring_app_l x y :
String.substring 0 (String.length x) (x +:+ y) = x.
Proof.
induction x as [|a x IH]; [by destruct y|].
rewrite app_cons. simpl. by rewrite IH.
Qed.

Lemma substring_all s : String.substring 0 (String.length s) s = s.
Proof. induction s as [|a s IH]; [done|]. simpl. by rewrite IH. Qed.

Lemma substring_app_r x y :
String.substring (String.length x)
  (String.length (x +:+ y) - String.length x) (x +:+ y) = y.
Proof.
induction x as [|a x IH].
- rewrite app_empty_l. simpl. rewrite Nat.sub_0_r. apply substring_all.
- rewrite app_cons. simpl. apply IH.
Qed.

(** Where [rfind] points: the text after the last occurrence holds no
  further one. *)
Lemma rfind_from_split c s : ∀ i last,
(PyStr.rfind_from c s i last = last ∧ PyStr.contains c s = false) ∨
∃ x t, s = x +:+ String c t ∧ PyStr.contains c t = false ∧
       PyStr.rfind_from c s i last = i + PyStr.len x.
Proof.
induction s as [|a s IH]; intros i last; [by left|]. simpl.
destruct (IH (i + 1) (if Ascii.eqb a c then i else last))
  as [[Hr Hc]|(x & t & -> & Ht & Hr)].
- destruct (Ascii.eqb a c) eqn:Ha.
  + right. apply Ascii.eqb_eq in Ha as ->. exists "", s.
    rewrite Hr. unfold PyStr.len. simpl. split; [done|]. split; [done|lia].
  + left. by rewrite Hr, Hc.
- right. exists (String a x), t. rewrite Hr. split; [done|]. split; [done|].
  unfold PyStr.len. simpl. lia.
Qed.

Lemma rfind_split c s :
(PyStr.rfind c s = -1 ∧ PyStr.contains c s = false) ∨
∃ x t, s = x +:+ String c t ∧ PyStr.contains c t = false ∧
       PyStr.rfind c s = PyStr.len x.
Proof.
destruct (rfind_from_split c s 0 (-1)) as [?|(x & t & ? & ? & Hr)];
  [by left|].
right. exists x, t. unfold PyStr.rfind. rewrite Hr. split; [done|].
split; [done|lia].
Qed.

Lemma rfind_from_app c x t : ∀ i last,
PyStr.contains c t = false →
PyStr.rfind_from c (x +:+ String c t) i last = i + PyStr.len x.
Proof.
induction x as [|a x IH]; intros i last Ht.
- rewrite app_empty_l. simpl. rewrite Ascii.eqb_refl.
  rewrite rfind_from_absent by done. unfold PyStr.len. simpl. lia.
- rewrite app_cons. simpl. rewrite IH by done.
  unfold PyStr.len. simpl. lia.
Qed.

Lemma rfind_app c x t :
PyStr.contains c t = false → PyStr.rfind c (x +:+ String c t) = PyStr.len x.
Proof. intros Ht. unfold PyStr.rfind. by rewrite rfind_from_app. Qed.

(** A name made of a non-empty head, a dot and a non-empty dot-free tail
  has that head as stem and the dot with the tail as suffix. *)
Lemma suffix_stem_of_app p x t :
name p = x +:+ String dot t → x ≠ "" → t ≠ "" →
PyStr.contains dot t = false →
suffix p = String dot t ∧ stem p = x.
Proof.
intros Hn Hx Ht Hc. unfold suffix, stem. rewrite Hn.
rewrite rfind_app by done.
assert (0 < PyStr.len x) as H0.
{ pose proof (len_nonneg x).
  destruct (decide (PyStr.len x = 0)) as [Hz%len_zero|]; [done|lia]. }
assert (0 < PyStr.len t) as H1.
{ pose proof (len_nonneg t).
  destruct (decide (PyStr.len t = 0)) as [Hz%len_zero|]; [done|lia]. }
assert ((PyStr.len x <? PyStr.len (x +:+ String dot t) - 1) = true) as ->.
{ apply Z.ltb_lt. rewrite len_app. unfold PyStr.len in *. simpl. lia. }
apply Z.ltb_lt in H0 as ->. cbn [andb].
unfold PyStr.slice_from, PyStr.slice_to, PyStr.len.
rewrite Nat2Z.id. by rewrite substring_app_r, substring_app_l.
Qed.

(** A suffix, when there is one, is a dot and a non-empty dot-free tail,
  and the stem before it is not empty. *)
Lemma suffix_shape p :
suffix p ≠ "" →
∃ x t, name p = x +:+ String dot t ∧ x ≠ "" ∧ t ≠ "" ∧
       PyStr.contains dot t = false ∧
       suffix p = String dot t ∧ stem p = x.
Proof.
intros Hs.
destruct (rfind_split dot (name p)) as [[Hr _]|(x & t & Hn & Hc & Hr)].
{ unfold suffix in Hs. rewrite Hr in Hs. done. }
assert (x ≠ "" ∧ t ≠ "") as [Hx Ht].
{ unfold suffix in Hs. rewrite Hr in Hs.
  destruct (_ && _) eqn:Hb in Hs; [|done].
  apply andb_true_iff in Hb as [H0%Z.ltb_lt H1%Z.ltb_lt].
  rewrite Hn, len_app in H1. unfold PyStr.len in *. simpl in H1.
  split; intros ->; simpl in *; lia. }
exists x, t. destruct (suffix_stem_of_app p x t) as [? ?]; auto 10.
Qed.

(** Lower-casing keeps dots where they are. *)
Lemma lower_ascii_dot c : PyStr.lower_ascii c = dot ↔ c = dot.
Proof.
split; [|by intros ->].
destruct c as [[] [] [] [] [] [] [] []]; by vm_compute.
Qed.

Lemma contains_dot_lower s :
PyStr.contains dot (PyStr.lower s) = PyStr.contains dot s.
Proof.
induction s as [|a s IH]; [done|]. simpl. rewrite IH. f_equal.
destruct (Ascii.eqb a dot) eqn:Ha.
- apply Ascii.eqb_eq in Ha as ->. done.
- apply Ascii.eqb_neq in Ha. apply Ascii.eqb_neq.
  by rewrite lower_ascii_dot.
Qed.

Lemma lower_cons_inv s a t :
PyStr.lower s = String a t →
∃ a' t', s = String a' t' ∧ PyStr.lower_ascii a' = a ∧ PyStr.lower t' = t.
Proof. destruct s as [|a' t']; [done|]. simpl. intros [= <- <-]. eauto. Qed.

End NameFacts.

(** ** The names of the stems *)

Section StemNames.
Import Pathlib AudioProcessor.

Lemma elem_of_expected_stems p s :
s ∈ expected_stems p ↔
∃ label, label ∈ ["vocals"; "drums"; "bass"; "other"] ∧
         s = stem_file p label.
Proof.
unfold expected_stems. rewrite list_elem_of_fmap.
split; intros (l & ? & ?); eauto.
Qed.

Lemma label_no_sep label :
label ∈ ["vocals"; "drums"; "bass"; "other"] →
PyStr.contains sep label = false.
Proof.
intros Hl. repeat (apply elem_of_cons in Hl as [->|Hl]; [done|]).
by apply elem_of_nil in Hl.
Qed.

Lemma stem_file_path p label :
PyStr.contains sep label = false →
Path (stem_file p label) =
mkPath (root (Path p))
  (removelast (parts (Path p)) ++ [stem_filename (Path p) label]) ∧
str (Path (stem_file p label)) = stem_file p label.
Proof.
intros Hl. rewrite stem_file_eq by done.
rewrite Path_str by (by apply stem_path_normal). done.
Qed.

Lemma suffix_by_name p q : name p = name q → suffix p = suffix q.
Proof. unfold suffix. by intros ->. Qed.

Lemma stem_file_suffix p label :
suffix (Path p) ≠ "" →
label ∈ ["vocals"; "drums"; "bass"; "other"] →
suffix (Path (stem_file p label)) = suffix (Path p) ∧
stem (Path (stem_file p label)) = stem (Path p) +:+ "_" +:+ label.
Proof.
intros Hs Hl. pose proof (label_no_sep label Hl) as Hsep.
destruct (stem_file_parse p label Hsep) as [_ Hn].
destruct (suffix_shape (Path p) Hs) as (x & t & _ & Hx & Ht & Hc & Hsuf & Hst).
unfold stem_filename in Hn. rewrite Hsuf, Hst in Hn.
rewrite Hsuf, Hst.
apply (suffix_stem_of_app _ (x +:+ "_" +:+ label) t); try done.
- by rewrite Hn, !app_assoc'.
- by intros [-> _]%app_eq_empty.
Qed.

Lemma stem_filename_inj p l1 l2 :
stem_filename p l1 = stem_filename p l2 → l1 = l2.
Proof.
unfold stem_filename. intros H.
apply (inj (String.app (stem p))) in H.
apply (inj (String.app "_")) in H. by apply app_inj_r in H.
Qed.

Lemma stem_filename_not_name p label : stem_filename p label ≠ name p.
Proof.
rewrite <-stem_suffix_name. unfold stem_filename. intros H.
apply (inj (String.app (stem p))) in H.
apply (f_equal PyStr.len) in H. rewrite !len_app in H.
pose proof (len_nonneg label). unfold PyStr.len in H at 1. simpl in H. lia.
Qed.

Lemma expected_stems_nodup p : NoDup (expected_stems p).
Proof.
unfold expected_stems. apply NoDup_fmap_2_strong;
  [|by apply (bool_decide_unpack _)].
intros l1 l2 H1 H2 Heq.
apply (f_equal (λ s, name (Path s))) in Heq.
destruct (stem_file_parse p l1 (label_no_sep _ H1)) as [_ Hn1].
destruct (stem_file_parse p l2 (label_no_sep _ H2)) as [_ Hn2].
simpl in Heq. rewrite Hn1, Hn2 in Heq. by apply stem_filename_inj in Heq.
Qed.

Lemma expected_stems_not_input p s :
s ∈ expected_stems p → s ≠ p ∧ Path s ≠ Path p.
Proof.
intros (label & Hl & ->)%elem_of_expected_stems.
destruct (stem_file_parse p label (label_no_sep _ Hl)) as [_ Hn].
assert (Path (stem_file p label) ≠ Path p) as Hne.
{ intros Heq. rewrite Heq in Hn. symmetry in Hn.
  by apply stem_filename_not_name in Hn. }
split; [|done]. intros Heq. by rewrite Heq in Hne.
Qed.

End StemNames.
(** ** Running the pipeline *)

Lemma bind_run {S A B} (m : Eff S A) (k : A → Eff S B) s :
  (m ≫= k) s =
  match m s with
  | (Returns a, s') => k a s'
  | (Raises e, s') => (Raises e, s')
  end.
Proof. reflexivity. Qed.

Lemma for_each_cons {S A B} (x : A) l (body : A → B → Eff S B) acc :
  for_each (x :: l) body acc = body x acc ≫= for_each l body.
Proof. reflexivity. Qed.

Section RunFacts.
Import Pathlib AudioProcessor.
Context {E : Type} (cb : string → Q → Eff E unit).
Context (total : Z) (path : PurePath) (names : list string).

Local Abbreviation call_of := (call_of total).
Local Abbreviation events_of := (events_of total).
Local Abbreviation acc_after := (acc_after total path names).

Lemma process_step_run it acc (w : world E) :
sigint w = None →
process_step cb total path names it acc w =
match cb (call_of it).1 (call_of it).2 (ext w) with
| (Returns _, e1) =>
    (Returns (acc_after acc it),
     mkWorld e1 (console w) (clock w) None
       (trace w ++ events_of it))
| (Raises e, e1) =>
    (Raises e,
     mkWorld e1 (console w) (clock w) None
       (trace w ++ [EvProgress (call_of it).1 (call_of it).2]))
end.
Proof.
intros Hs. destruct it as [i step]. destruct w as [e co cl si tr].
simpl in Hs. subst si.
unfold process_step, invoke. rewrite !bind_run.
unfold log, on_ext, call_of, events_of, acc_after. simpl.
destruct (cb step _ e) as [[[]|ex] e1]; simpl; [|done].
rewrite bind_run. unfold time_sleep. simpl.
rewrite <-app_assoc. simpl.
by destruct (i =? total - 1).
Qed.

(** Without an interrupt the loop goes as far as the callback lets it. *)
Lemma loop_returns l : ∀ acc (w : world E) e',
sigint w = None →
run_calls cb (call_of <$> l) (ext w) = (Returns (), e') →
for_each l (process_step cb total path names) acc w =
(Returns (fold_left acc_after l acc),
 mkWorld e' (console w) (clock w) None
   (trace w ++ flat_map events_of l)).
Proof.
induction l as [|it l IH]; intros acc w e' Hs Hrun.
- destruct w as [e co cl si tr]. simpl in *. subst.
  inversion Hrun; subst. unfold mret, eff_ret. by rewrite app_nil_r.
- simpl for_each. rewrite bind_run, process_step_run by done.
  destruct it as [i step]. rewrite fmap_cons in Hrun.
  change (call_of (i, step))
    with (step, (inject_Z (i + 1) / inject_Z total)%Q) in *.
  cbn [fst snd run_calls] in *. rewrite bind_run in Hrun.
  destruct (cb step _ (ext w)) as [[[]|ex] e1]; [|done].
  rewrite (IH _ _ e') by done. simpl.
  by rewrite <-app_assoc.
Qed.

Lemma loop_raises l : ∀ acc (w : world E) ex e',
sigint w = None →
run_calls cb (call_of <$> l) (ext w) = (Raises ex, e') →
(for_each l (process_step cb total path names) acc w).1 = Raises ex.
Proof.
induction l as [|it l IH]; intros acc w ex e' Hs Hrun.
- done.
- simpl for_each. rewrite bind_run, process_step_run by done.
  destruct it as [i step]. rewrite fmap_cons in Hrun.
  change (call_of (i, step))
    with (step, (inject_Z (i + 1) / inject_Z total)%Q) in *.
  cbn [fst snd run_calls] in *. rewrite bind_run in Hrun.
  destruct (cb step _ (ext w)) as [[[]|ex1] e1].
  + by apply (IH _ _ ex e').
  + by inversion Hrun.
Qed.

End RunFacts.

(** ** Runs that are cut short *)

Lemma for_each_app {S A B} (l1 l2 : list A) (f : A → B → Eff S B) :
  ∀ acc s,
    for_each (l1 ++ l2) f acc s = (for_each l1 f acc ≫= for_each l2 f) s.
Proof.
  induction l1 as [|x l1 IH]; intros acc s.
  - by rewrite bind_run.
  - simpl. rewrite !bind_run. destruct (f x acc s) as [[a|e] s1]; [|done].
    by rewrite IH, bind_run.
Qed.

Lemma run_calls_app {E} (cb : string → Q → Eff E unit) c1 c2 :
  ∀ e, run_calls cb (c1 ++ c2) e = (run_calls cb c1 ≫= λ _, run_calls cb c2) e.
Proof.
  induction c1 as [|[step f] c1 IH]; intros e.
  - by rewrite bind_run.
  - simpl. rewrite !bind_run. destruct (cb step f e) as [[[]|ex] e1]; [|done].
    by rewrite IH, bind_run.
Qed.

Lemma quiet_for_succ n s :
  quiet_for (S n) s → quiet_for 1 s ∧ quiet_for n (sigint_after 1 s).
Proof. destruct s as [k|]; simpl; [lia|done]. Qed.

Lemma sigint_after_succ n s :
  sigint_after n (sigint_after 1 s) = sigint_after (S n) s.
Proof. destruct s as [k|]; simpl; [f_equal; lia|done]. Qed.

Lemma sigint_after_0 s : sigint_after 0 s = s.
Proof. destruct s as [k|]; simpl; [f_equal; lia|done]. Qed.

Section CutShort.
Import Pathlib AudioProcessor.
Context {E : Type} (cb : string → Q → Eff E unit).
Context (total : Z) (path : PurePath) (names : list string).

Local Abbreviation call_of := (call_of total).
Local Abbreviation events_of := (events_of total).
Local Abbreviation acc_after := (acc_after total path names).
Local Abbreviation body := (process_step cb total path names).

(** One stage when no Ctrl-C comes during its pause. *)
Lemma process_step_quiet it acc (w : world E) :
quiet_for 1 (sigint w) →
body it acc w =
match cb (call_of it).1 (call_of it).2 (ext w) with
| (Returns _, e1) =>
    (Returns (acc_after acc it),
     mkWorld e1 (console w) (clock w)
       (sigint_after 1 (sigint w)) (trace w ++ events_of it))
| (Raises e, e1) =>
    (Raises e,
     mkWorld e1 (console w) (clock w) (sigint w)
       (trace w ++ [EvProgress (call_of it).1 (call_of it).2]))
end.
Proof.
intros Hq. destruct it as [i step]. destruct w as [e co cl si tr].
simpl in Hq.
unfold process_step, invoke. rewrite !bind_run.
unfold log, on_ext. simpl.
destruct (cb step _ e) as [[[]|ex] e1]; simpl; [|done].
rewrite bind_run. unfold time_sleep. simpl.
unfold acc_after. simpl.
destruct si as [[|k]|]; simpl in *; [lia| |];
  rewrite <-app_assoc; simpl; rewrite ?Nat.sub_0_r;
  by destruct (i =? total - 1).
Qed.

(** One stage when Ctrl-C comes during its pause. *)
Lemma process_step_interrupted it acc (w : world E) e1 :
sigint w = Some 0%nat →
cb (call_of it).1 (call_of it).2 (ext w) = (Returns (), e1) →
body it acc w =
(Raises KeyboardInterrupt,
 mkWorld e1 (console w) (clock w) None
   (trace w ++ [EvProgress (call_of it).1 (call_of it).2])).
Proof.
intros Hs Hcb. destruct it as [i step]. destruct w as [e co cl si tr].
simpl in Hs, Hcb. subst si.
unfold process_step, invoke. rewrite !bind_run.
unfold log, on_ext. simpl. rewrite Hcb. simpl.
rewrite bind_run. by unfold time_sleep.
Qed.

Lemma loop_returns_quiet l : ∀ acc (w : world E) e',
quiet_for (length l) (sigint w) →
run_calls cb (call_of <$> l) (ext w) = (Returns (), e') →
for_each l body acc w =
(Returns (fold_left acc_after l acc),
 mkWorld e' (console w) (clock w)
   (sigint_after (length l) (sigint w))
   (trace w ++ flat_map events_of l)).
Proof.
induction l as [|it l IH]; intros acc w e' Hq Hrun.
- destruct w as [e co cl si tr]. simpl in *.
  inversion Hrun; subst. unfold mret, eff_ret.
  by rewrite app_nil_r, sigint_after_0.
- apply quiet_for_succ in Hq as [Hq1 Hq].
  rewrite for_each_cons, bind_run, process_step_quiet by done.
  destruct it as [i step]. rewrite fmap_cons in Hrun.
  change (call_of (i, step))
    with (step, (inject_Z (i + 1) / inject_Z total)%Q) in *.
  cbn [fst snd run_calls] in *. rewrite bind_run in Hrun.
  destruct (cb step _ (ext w)) as [[[]|ex] e1]; [|done].
  rewrite (IH _ _ e') by done. cbn [ext console clock sigint trace].
  rewrite sigint_after_succ. by rewrite <-app_assoc.
Qed.

(** Ctrl-C during the pause that follows the stages of [l1]. *)
Lemma loop_interrupted l1 it l2 acc (w : world E) e' :
sigint w = Some (length l1) →
run_calls cb (call_of <$> (l1 ++ [it])) (ext w) = (Returns (), e') →
for_each (l1 ++ it :: l2) body acc w =
(Raises KeyboardInterrupt,
 mkWorld e' (console w) (clock w) None
   (trace w ++ flat_map events_of l1
      ++ [EvProgress (call_of it).1 (call_of it).2])).
Proof.
intros Hs Hrun. rewrite fmap_app, run_calls_app, bind_run in Hrun.
destruct (run_calls cb (call_of <$> l1) (ext w)) as [[[]|ex] e1] eqn:H1;
  [|done].
rewrite for_each_app, bind_run.
rewrite (loop_returns_quiet l1 acc w e1); [|rewrite Hs; simpl; lia|done].
rewrite for_each_cons, bind_run.
destruct it as [i step]. simpl in Hrun. rewrite bind_run in Hrun.
destruct (cb step _ e1) as [[[]|ex] e2] eqn:H2; [|done].
inversion Hrun; subst e2.
rewrite (process_step_interrupted _ _ _ e').
- cbn [ext console clock sigint trace]. by rewrite <-app_assoc.
- cbn [sigint]. rewrite Hs. simpl. f_equal. lia.
- exact H2.
Qed.

(** The callback raising on the stage that follows those of [l1]. *)
Lemma loop_callback_raises l1 it l2 acc (w : world E) e1 ex e2 :
quiet_for (length l1) (sigint w) →
run_calls cb (call_of <$> l1) (ext w) = (Returns (), e1) →
cb (call_of it).1 (call_of it).2 e1 = (Raises ex, e2) →
for_each (l1 ++ it :: l2) body acc w =
(Raises ex,
 mkWorld e2 (console w) (clock w)
   (sigint_after (length l1) (sigint w))
   (trace w ++ flat_map events_of l1
      ++ [EvProgress (call_of it).1 (call_of it).2])).
Proof.
intros Hq H1 H2. rewrite for_each_app, bind_run.
rewrite (loop_returns_quiet l1 acc w e1) by done.
rewrite for_each_cons, bind_run.
unfold process_step. destruct it as [i step].
unfold invoke. rewrite !bind_run. unfold log, on_ext.
cbn [ext console clock sigint trace]. simpl in H2. rewrite H2.
cbn beta iota. by rewrite <-app_assoc.
Qed.

End CutShort.

(** ** [process_audio] as a whole *)

Section ProcessFacts.
Import Pathlib AudioProcessor.
Context {E : Type} (cb : string → Q → Eff E unit).

(** With no interrupt and a callback that returns every time, the run
  is known to the last detail. *)
Lemma process_audio_returns file_path (w : world E) e' :
sigint w = None →
run_calls cb expected_calls (ext w) = (Returns (), e') →
process_audio file_path cb w =
let r := mkResult (expected_stems file_path) (duration_read (clock w)) in
(Returns r,
 mkWorld e' (console w) (clock_from 2 (clock w)) None
   (trace w ++ [EvEnter file_path] ++ run_events ++ [EvReturn r])).
Proof.
intros Hs Hrun. unfold process_audio.
rewrite bind_run. unfold log at 1. cbn beta iota.
rewrite bind_run. unfold time_time at 1. cbn beta iota.
rewrite bind_run.
rewrite (loop_returns cb _ _ _ _ _ _ e') by done.
cbn beta iota. rewrite bind_run. unfold time_time. cbn beta iota.
rewrite bind_run. unfold log. cbn [ext console clock sigint trace].
unfold mret, eff_ret. cbn zeta. f_equal.
f_equal. by rewrite <-!app_assoc.
Qed.

(** With no interrupt, an exception of the run is one of the callback. *)
Lemma process_audio_raises file_path (w : world E) ex e' :
sigint w = None →
run_calls cb expected_calls (ext w) = (Raises ex, e') →
(process_audio file_path cb w).1 = Raises ex.
Proof.
intros Hs Hrun. unfold process_audio.
rewrite bind_run. unfold log at 1. cbn beta iota.
rewrite bind_run. unfold time_time at 1. cbn beta iota.
rewrite bind_run.
match goal with
| |- context [for_each ?l (process_step cb ?t ?p ?n) ?a ?w0] =>
    pose proof (loop_raises cb t p n l a w0 ex e' Hs Hrun) as Hl;
    destruct (for_each l (process_step cb t p n) a w0) as [[a'|ex'] w1]
end; simpl in Hl; [done|]. by inversion Hl.
Qed.

(** Before the last stage nothing is appended to [generated_stems]. *)
Lemma loop_keeps_acc total path names l :
Forall (λ it : Z * string, it.1 ≠ total - 1) l →
∀ acc (w : world E) a w',
  for_each l (process_step cb total path names) acc w = (Returns a, w') →
  a = acc.
Proof.
induction 1 as [|[i step] l Hi Hl IH]; intros acc w a w' Hrun.
- by inversion Hrun.
- rewrite for_each_cons, bind_run in Hrun.
  destruct (process_step cb total path names (i, step) acc w)
    as [[a1|ex] w1] eqn:Hstep; simpl in Hrun; [|done].
  apply IH in Hrun. subst a.
  unfold process_step in Hstep. rewrite !bind_run in Hstep.
  destruct (invoke cb step _ w) as [[[]|?] w2]; [|done].
  rewrite bind_run in Hstep.
  destruct (time_sleep _ w2) as [[[]|?] w3]; [|done].
  simpl in Hi. apply Z.eqb_neq in Hi. rewrite Hi in Hstep.
  by inversion Hstep.
Qed.

End ProcessFacts.


(** ** Runs of [process_audio], as equations *)

Section ProcessRuns.
Import Pathlib AudioProcessor.
Context {E : Type} (cb : string → Q → Eff E unit).

Local Abbreviation labels := ["vocals"; "drums"; "bass"; "other"].
Local Abbreviation items := (enumerate PROCESSING_STEPS).

Lemma progress_calls_app t1 t2 :
progress_calls (t1 ++ t2) = progress_calls t1 ++ progress_calls t2.
Proof. apply omap_app. Qed.

Lemma returns_of_app t1 t2 :
returns_of (t1 ++ t2) = returns_of t1 ++ returns_of t2.
Proof. apply omap_app. Qed.

Lemma progress_calls_upto cs : progress_calls (events_upto cs) = cs.
Proof. induction cs as [|[s q] cs IH]; [done|]. simpl. by rewrite IH. Qed.

Lemma returns_of_upto cs : returns_of (events_upto cs) = [].
Proof. induction cs as [|[s q] cs IH]; [done|]. simpl. by rewrite IH. Qed.

(** [process_audio] around its loop. *)
Lemma process_audio_loop file_path (w : world E) :
process_audio file_path cb w =
match for_each items (process_step cb 7 (Path file_path) labels) []
        (mkWorld (ext w) (console w) (clock_from 1 (clock w)) (sigint w)
           (trace w ++ [EvEnter file_path])) with
| (Returns generated_stems, w2) =>
    let r := mkResult generated_stems (clock w2 0%nat - clock w 0%nat)%Q in
    (Returns r,
     mkWorld (ext w2) (console w2) (clock_from 1 (clock w2)) (sigint w2)
       (trace w2 ++ [EvReturn r]))
| (Raises e, w2) => (Raises e, w2)
end.
Proof.
unfold process_audio. rewrite bind_run. unfold log at 1. cbn beta iota.
rewrite bind_run. unfold time_time at 1. cbn beta iota.
rewrite bind_run. cbn [ext console clock sigint trace].
change (Z.of_nat (length PROCESSING_STEPS)) with 7.
change (λ n : nat, clock w (S n)) with (clock_from 1 (clock w)).
match goal with
| |- context [for_each ?l ?b ?a ?w0] => destruct (for_each l b a w0) as [[gs|e] w2]
end; [|done].
by rewrite bind_run.
Qed.

Lemma items_calls : call_of 7 <$> items = expected_calls.
Proof. reflexivity. Qed.

Lemma events_of_calls (l : list (Z * string)) :
flat_map (events_of 7) l = events_upto (call_of 7 <$> l).
Proof. induction l as [|it l IH]; [done|]. simpl. by rewrite IH. Qed.

(** The stage of index [k] and the stages before it. *)
Lemma items_split k step f :
expected_calls !! k = Some (step, f) →
∃ it,
  items = take k items ++ it :: drop (S k) items ∧
  call_of 7 it = (step, f) ∧
  length (take k items) = k ∧
  call_of 7 <$> take k items = take k expected_calls ∧
  call_of 7 <$> (take k items ++ [it]) = take (S k) expected_calls.
Proof.
intros Hk. pose proof Hk as Hk'.
rewrite <-items_calls, list_lookup_fmap in Hk'.
destruct (items !! k) as [it|] eqn:Hit; [|done]. simpl in Hk'.
assert (call_of 7 it = (step, f)) as Hc by congruence. exists it.
split; [by rewrite (take_drop_middle _ _ _ Hit)|]. split; [done|].
split.
{ rewrite length_take. apply lookup_lt_Some in Hit. lia. }
split; [by rewrite fmap_take|].
rewrite fmap_app, fmap_take, items_calls, (take_S_r _ _ _ Hk).
by rewrite <-Hc.
Qed.

(** The three ways a run can go, as equations. *)
Lemma process_audio_quiet_run file_path (w : world E) e' :
quiet_for 7 (sigint w) →
run_calls cb expected_calls (ext w) = (Returns (), e') →
process_audio file_path cb w =
let r := mkResult (expected_stems file_path) (duration_read (clock w)) in
(Returns r,
 mkWorld e' (console w) (clock_from 2 (clock w)) (sigint_after 7 (sigint w))
   (trace w ++ EvEnter file_path :: events_upto expected_calls
      ++ [EvReturn r])).
Proof.
intros Hq Hrun. rewrite process_audio_loop.
rewrite (loop_returns_quiet cb 7 _ _ items [] _ e') by done.
cbn [ext console clock sigint trace]. cbn zeta.
by rewrite <-!app_assoc.
Qed.

Lemma process_audio_interrupt_run file_path (w : world E) k step f e' :
sigint w = Some k →
expected_calls !! k = Some (step, f) →
run_calls cb (take (S k) expected_calls) (ext w) = (Returns (), e') →
process_audio file_path cb w =
(Raises KeyboardInterrupt,
 mkWorld e' (console w) (clock_from 1 (clock w)) None
   (trace w ++ EvEnter file_path :: events_upto (take k expected_calls)
      ++ [EvProgress step f])).
Proof.
intros Hs Hk Hrun.
destruct (items_split k step f Hk) as (it & Hsplit & Hit & Hlen & Hpre & Hall).
rewrite process_audio_loop. rewrite Hsplit.
rewrite (loop_interrupted cb 7 _ _ (take k items) it _ [] _ e');
  [|by rewrite Hlen|by rewrite Hall].
cbn [ext console clock sigint trace].
rewrite events_of_calls, Hpre, Hit. cbn [fst snd].
by rewrite <-!app_assoc.
Qed.

Lemma process_audio_raise_run file_path (w : world E) j step f e1 ex e2 :
quiet_for j (sigint w) →
expected_calls !! j = Some (step, f) →
run_calls cb (take j expected_calls) (ext w) = (Returns (), e1) →
cb step f e1 = (Raises ex, e2) →
process_audio file_path cb w =
(Raises ex,
 mkWorld e2 (console w) (clock_from 1 (clock w))
   (sigint_after j (sigint w))
   (trace w ++ EvEnter file_path :: events_upto (take j expected_calls)
      ++ [EvProgress step f])).
Proof.
intros Hq Hj Hrun Hcb.
destruct (items_split j step f Hj) as (it & Hsplit & Hit & Hlen & Hpre & _).
rewrite process_audio_loop. rewrite Hsplit.
rewrite (loop_callback_raises cb 7 _ _ (take j items) it _ [] _ e1 ex e2);
  [|by rewrite Hlen|by rewrite Hpre|by rewrite Hit].
cbn [ext console clock sigint trace].
rewrite events_of_calls, Hpre, Hit, Hlen. cbn [fst snd].
by rewrite <-!app_assoc.
Qed.

(** The calls and returns in the trace of a run cut short at stage [k]. *)
Lemma cut_trace_facts (t0 : list event) file_path k step f :
expected_calls !! k = Some (step, f) →
let new :=
  drop (length t0)
    (t0 ++ EvEnter file_path :: events_upto (take k expected_calls)
        ++ [EvProgress step f]) in
progress_calls new = take (S k) expected_calls ∧ returns_of new = [].
Proof.
intros Hk new. subst new. rewrite drop_app_length.
rewrite (take_S_r _ _ _ Hk).
change (EvEnter file_path :: ?t) with ([EvEnter file_path] ++ t).
rewrite !progress_calls_app, !returns_of_app.
by rewrite progress_calls_upto, returns_of_upto.
Qed.

End ProcessRuns.

(** ** The validator *)

Section ValidatorFacts.
Import Pathlib AudioProcessor.

Lemma elem_of_supported x :
x ∈ SUPPORTED_EXTENSIONS ↔
x = ".mp3" ∨ x = ".wav" ∨ x = ".flac" ∨ x = ".ogg" ∨ x = ".m4a".
Proof.
unfold SUPPORTED_EXTENSIONS.
rewrite !elem_of_union, !elem_of_singleton. tauto.
Qed.

Lemma lower_supported e : e ∈ SUPPORTED_EXTENSIONS → PyStr.lower e = e.
Proof.
intros He. apply elem_of_supported in He.
by destruct He as [->|[->|[->|[->| ->]]]].
Qed.

Lemma supported_ci_iff ext :
PyStr.lower ext ∈ SUPPORTED_EXTENSIONS ↔ supported_ci ext.
Proof.
split.
- intros H. exists (PyStr.lower ext). split; [done|].
  by rewrite (lower_supported _ H).
- intros (e & He & Hl). rewrite Hl. by rewrite lower_supported.
Qed.

(** [sorted] of any set: ordered, without repetition, the same members. *)
Lemma sorted_spec (s : gset string) :
Sorted String.le (sorted s) ∧ NoDup (sorted s) ∧
length (sorted s) = size s ∧ ∀ x, x ∈ sorted s ↔ x ∈ s.
Proof.
unfold sorted.
pose proof (merge_sort_Permutation String.le (elements s)) as Hp.
split; [apply (Sorted_merge_sort String.le)|].
split; [rewrite Hp; apply NoDup_elements|].
split; [by rewrite Hp|].
intros x. rewrite Hp. apply elem_of_elements.
Qed.

Lemma sorted_strict (l : list string) :
Sorted String.le l → NoDup l → StronglySorted (strict String.le) l.
Proof.
intros Hs%(Sorted_StronglySorted _) Hn.
induction Hs as [|x l Hl IH Hx]; [constructor|].
apply NoDup_cons in Hn as [Hxl Hn].
constructor; [by apply IH|].
apply Forall_forall. intros y Hy. rewrite Forall_forall in Hx.
split; [by apply Hx|]. intros Hyx.
assert (x = y) as -> by (apply (anti_symm String.le); auto).
done.
Qed.

(** The order in which the set hands out its members does not matter. *)
Lemma sorted_any_order (s : gset string) (l : list string) :
l ≡ₚ elements s → merge_sort String.le l = sorted s.
Proof.
intros Hl. apply (Sorted_unique String.le).
- apply (Sorted_merge_sort String.le).
- apply (Sorted_merge_sort String.le).
- unfold sorted. by rewrite !merge_sort_Permutation.
Qed.

Lemma sorted_supported : sorted SUPPORTED_EXTENSIONS = sorted_formats.
Proof. by vm_compute. Qed.

Lemma reason_nonempty (pre : string) a s :
String a pre +:+ s ≠ "".
Proof. done. Qed.

(** The three ways to fail, and the one to pass. *)
Lemma validate_missing fs file_path :
fs (str (Path file_path)) = Missing →
validate_audio_file fs file_path =
Returns (false, "File not found: " +:+ file_path).
Proof. intros H. unfold validate_audio_file, path_exists. by rewrite H. Qed.

(** A failure of [os.stat] that does not mean absence leaves the
  validator as it is. *)
Lemma validate_stat_error fs file_path msg :
fs (str (Path file_path)) = StatError msg →
validate_audio_file fs file_path = Raises (Exception msg).
Proof. intros H. unfold validate_audio_file, path_exists. by rewrite H. Qed.

Lemma validate_not_file fs file_path :
fs (str (Path file_path)) = Directory ∨ fs (str (Path file_path)) = Special →
validate_audio_file fs file_path =
Returns (false, "Path is not a file: " +:+ file_path).
Proof.
intros [H|H]; unfold validate_audio_file, path_exists, is_file; by rewrite H.
Qed.

Lemma validate_unsupported fs file_path :
fs (str (Path file_path)) = RegularFile →
PyStr.lower (suffix (Path file_path)) ∉ SUPPORTED_EXTENSIONS →
validate_audio_file fs file_path =
Returns (false, unsupported_reason (suffix (Path file_path))).
Proof.
intros H Hn. unfold validate_audio_file, path_exists, is_file.
rewrite H. cbn [negb mbind res_bind].
rewrite bool_decide_eq_false_2 by done. cbn [negb].
by rewrite sorted_supported.
Qed.

Lemma validate_supported fs file_path :
fs (str (Path file_path)) = RegularFile →
PyStr.lower (suffix (Path file_path)) ∈ SUPPORTED_EXTENSIONS →
validate_audio_file fs file_path = Returns (true, "").
Proof.
intros H Hn. unfold validate_audio_file, path_exists, is_file.
rewrite H. cbn [negb mbind res_bind].
by rewrite bool_decide_eq_true_2 by done.
Qed.

(** What the validator does, by what [os.stat] finds. *)
Lemma validate_cases fs file_path :
match fs (str (Path file_path)) with
| Missing =>
    validate_audio_file fs file_path =
    Returns (false, "File not found: " +:+ file_path)
| RegularFile =>
    validate_audio_file fs file_path =
    if bool_decide (PyStr.lower (suffix (Path file_path)) ∈ SUPPORTED_EXTENSIONS)
    then Returns (true, "")
    else Returns (false, unsupported_reason (suffix (Path file_path)))
| Directory | Special =>
    validate_audio_file fs file_path =
    Returns (false, "Path is not a file: " +:+ file_path)
| StatError msg => validate_audio_file fs file_path = Raises (Exception msg)
end.
Proof.
destruct (fs (str (Path file_path))) eqn:Hk.
- by apply validate_missing.
- case_bool_decide.
  + by apply validate_supported.
  + by apply validate_unsupported.
- apply validate_not_file. by left.
- apply validate_not_file. by right.
- by apply validate_stat_error.
Qed.

(** The validator accepts with the empty reason only, and only a regular
  file. *)
Lemma validate_accepts_inv fs file_path reason :
validate_audio_file fs file_path = Returns (true, reason) →
reason = "" ∧ fs (str (Path file_path)) = RegularFile ∧
PyStr.lower (suffix (Path file_path)) ∈ SUPPORTED_EXTENSIONS.
Proof.
intros Hv. pose proof (validate_cases fs file_path) as Hc.
destruct (fs (str (Path file_path))); rewrite Hv in Hc; try done.
case_bool_decide; [|done]. by inversion Hc.
Qed.

(** The validator sees the parsed path only. *)
Lemma validate_depends_on_path fs p q :
Path q = Path p →
fst <$> validate_audio_file fs q = fst <$> validate_audio_file fs p ∧
(fs (str (Path p)) = RegularFile →
 validate_audio_file fs q = validate_audio_file fs p).
Proof.
intros Hq. unfold validate_audio_file, path_exists, is_file. rewrite Hq.
by destruct (fs (str (Path p))).
Qed.

(** A supported extension, in any letter case, is a dot followed by
  characters that are no dots. *)
Lemma supported_ci_shape ext :
supported_ci ext →
∃ t, ext = String dot t ∧ t ≠ "" ∧ PyStr.contains dot t = false.
Proof.
intros Hci%supported_ci_iff%elem_of_supported.
assert (∃ t0, PyStr.lower ext = String dot t0 ∧ t0 ≠ "" ∧
              PyStr.contains dot t0 = false) as (t0 & Hl & Ht0 & Hc0).
{ destruct Hci as [->|[->|[->|[->| ->]]]]; eexists; by repeat split. }
apply lower_cons_inv in Hl as (a' & t' & -> & Ha & <-).
apply (proj1 (lower_ascii_dot a')) in Ha. subst a'. exists t'. split; [done|]. split.
- by intros ->.
- by rewrite <-contains_dot_lower.
Qed.

(** Names without a dot, and names whose only dot comes first, have no
  suffix. *)
Lemma suffix_no_dot p :
PyStr.contains dot (name p) = false → suffix p = "".
Proof. intros H. unfold suffix. by rewrite rfind_absent. Qed.

Lemma suffix_leading_dot p rest :
name p = String dot rest → PyStr.contains dot rest = false → suffix p = "".
Proof. intros Hn H. unfold suffix. rewrite Hn. by rewrite rfind_leading. Qed.

End ValidatorFacts.

(** ** Markup that [rich] takes *)

Section MarkupFacts.
Import Tags.
















(** *** Plain paths *)











End MarkupFacts.

(** ** The command: what does not depend on earlier output *)

Section BlindFacts.
Import Pathlib AudioProcessor Cli.
Context {E : Type} `{!Progress E} {parser : Rich}.

Lemma console_sim_refl c (w : world E) (x : list renderable) :
console w = c ++ x → console_sim c c w w.
Proof. intros H. repeat split. by exists x. Qed.

Lemma blind_ret {A} (a : A) : blind (E := E) (mret a).
Proof. by intros c1 c2 w1 w2 Hsim. Qed.

Lemma blind_raise {A} e : blind (E := E) (A := A) (raise e).
Proof. by intros c1 c2 w1 w2 Hsim. Qed.

Lemma blind_bind {A B} (m : Eff (world E) A) (k : A → Eff (world E) B) :
blind m → (∀ a, blind (k a)) → blind (m ≫= k).
Proof.
intros Hm Hk c1 c2 w1 w2 Hsim. rewrite !bind_run.
destruct (Hm _ _ _ _ Hsim) as [Hr Hs].
destruct (m w1) as [r1 w1'], (m w2) as [r2 w2']. simpl in *. subst r2.
destruct r1 as [a|e]; [by apply Hk|done].
Qed.

Lemma blind_log ev : blind (E := E) (log ev).
Proof.
intros c1 c2 w1 w2 (He & Hc & Hs & Ht & rest & H1 & H2).
split; [done|]. unfold log. simpl. repeat split; simpl; try congruence; eauto.
Qed.

Lemma blind_time_time : blind (E := E) time_time.
Proof.
intros c1 c2 w1 w2 (He & Hc & Hs & Ht & rest & H1 & H2).
unfold time_time. simpl. rewrite Hc. split; [done|].
repeat split; simpl; try congruence; eauto.
Qed.

Lemma blind_time_sleep d : blind (E := E) (time_sleep d).
Proof.
intros c1 c2 w1 w2 (He & Hc & Hs & Ht & rest & H1 & H2).
unfold time_sleep. rewrite Hs.
destruct (sigint w2) as [[|n]|]; simpl; (split; [done|]);
  repeat split; simpl; try congruence; eauto.
Qed.

Lemma blind_on_ext {A} (m : Eff E A) : blind (on_ext m).
Proof.
intros c1 c2 w1 w2 (He & Hc & Hs & Ht & rest & H1 & H2).
unfold on_ext. rewrite He. destruct (m (ext w2)) as [r e'].
simpl. split; [done|]. repeat split; simpl; try congruence; eauto.
Qed.

Lemma blind_lift {A} (r : res A) : blind (E := E) (lift r).
Proof. by intros c1 c2 w1 w2 Hsim. Qed.

Lemma blind_console_print x : blind (E := E) (console_print x).
Proof.
intros c1 c2 w1 w2 Hsim. unfold console_print.
destruct (render_error x); [done|].
destruct Hsim as (He & Hc & Hs & Ht & rest & H1 & H2).
simpl. split; [done|].
repeat split; simpl; try congruence.
exists (rest ++ [x]). by rewrite H1, H2, <-!app_assoc.
Qed.

Lemma blind_when b (m : Eff (world E) unit) : blind m → blind (when b m).
Proof. destruct b; [done|]. intros _. apply blind_ret. Qed.

Lemma blind_for_each {A B} (l : list A) (body : A → B → Eff (world E) B) :
(∀ x acc, blind (body x acc)) → ∀ acc, blind (for_each l body acc).
Proof.
intros Hb. induction l as [|x l IH]; intros acc.
- apply blind_ret.
- rewrite for_each_cons. by apply blind_bind.
Qed.

Lemma blind_finally {A} (m : Eff (world E) A) leave :
blind m → blind leave → blind (finally m leave).
Proof.
intros Hm Hl c1 c2 w1 w2 Hsim. unfold finally.
destruct (Hm _ _ _ _ Hsim) as [Hr Hs].
destruct (m w1) as [r1 w1'], (m w2) as [r2 w2']. simpl in *. subst r2.
destruct (Hl _ _ _ _ Hs) as [Hr' Hs'].
destruct (leave w1') as [q1 w1''], (leave w2') as [q2 w2''].
simpl in *. subst q2. by destruct r1, q1.
Qed.

Lemma blind_try_except {A} (m : Eff (world E) A) hk he :
blind m → blind hk → (∀ msg, blind (he msg)) → blind (try_except m hk he).
Proof.
intros Hm Hk He c1 c2 w1 w2 Hsim. unfold try_except.
destruct (Hm _ _ _ _ Hsim) as [Hr Hs].
destruct (m w1) as [r1 w1'], (m w2) as [r2 w2']. simpl in *. subst r2.
destruct r1 as [a|[|c|msg]]; [done|by apply Hk|done|by apply He].
Qed.

Ltac blind_step :=
first
  [ apply blind_ret | apply blind_raise | apply blind_log
  | apply blind_time_time | apply blind_time_sleep | apply blind_on_ext
  | apply blind_console_print
  | apply blind_when
  | apply blind_bind; [|intros ?]
  | apply blind_for_each; intros ? ?
  | apply blind_finally
  | apply blind_try_except; [| |intros ?] ].

Lemma blind_process_audio file_path (cb : string → Q → Eff E unit) :
blind (process_audio file_path cb).
Proof.
unfold process_audio. repeat blind_step.
Qed.

Lemma blind_run_with_progress file_path : blind (run_with_progress file_path).
Proof.
unfold run_with_progress. repeat blind_step.
Qed.

Lemma blind_show_result verbose r : blind (show_result (E := E) verbose r).
Proof.
unfold show_result, print_panel. repeat blind_step.
destruct x as [i stem]. apply blind_console_print.
Qed.

Lemma blind_check_and_run fs audio_file verbose :
blind (check_and_run fs audio_file verbose).
Proof.
unfold check_and_run. apply blind_bind; [apply blind_lift|].
intros [ok msg].
unfold reject, try_body, on_keyboard_interrupt, on_exception,
  print_error, print_info, sys_exit.
repeat first
  [ apply blind_run_with_progress | apply blind_show_result | blind_step ].
Qed.

End BlindFacts.

(** ** The command: what a run adds to the trace *)

Section TraceFacts.
Import Pathlib AudioProcessor Cli.
Context {E : Type} `{!Progress E} {parser : Rich} (P : event → Prop).

Local Abbreviation any := (λ _, True).

Lemma traces_ret {A} (Qv : A → Prop) a : Qv a → traces (E := E) P Qv (mret a).
Proof.
intros Ha w. split.
- exists []. by rewrite app_nil_r.
- by intros ? [= <-].
Qed.

Lemma traces_raise {A} (Qv : A → Prop) e : traces (E := E) P Qv (raise e).
Proof.
intros w. split; [|done]. exists []. by rewrite app_nil_r.
Qed.

Lemma traces_weaken {A} (Q1 Q2 : A → Prop) (m : Eff (world E) A) :
(∀ a, Q1 a → Q2 a) → traces P Q1 m → traces P Q2 m.
Proof. intros HQ Hm w. destruct (Hm w) as [Ht Hv]. split; auto. Qed.

Lemma traces_bind {A B} (Q1 : A → Prop) (Q2 : B → Prop)
  (m : Eff (world E) A) (k : A → Eff (world E) B) :
traces P Q1 m → (∀ a, Q1 a → traces P Q2 (k a)) → traces P Q2 (m ≫= k).
Proof.
intros Hm Hk w. rewrite bind_run.
destruct (Hm w) as [(new1 & Ht1 & HP1) Hv1].
destruct (m w) as [[a|e] w1]; simpl in *.
- destruct (Hk a (Hv1 a eq_refl) w1) as [(new2 & Ht2 & HP2) Hv2].
  split; [|done]. exists (new1 ++ new2).
  rewrite Ht2, Ht1, <-app_assoc. split; [done|]. by apply Forall_app.
- split; [eauto|done].
Qed.

Lemma traces_log ev : P ev → traces (E := E) P any (log ev).
Proof.
intros Hev w. split; [|done]. exists [ev]. split; [done|].
by constructor.
Qed.

Lemma traces_time_time : traces (E := E) P any time_time.
Proof. intros w. split; [|done]. exists []. by rewrite app_nil_r. Qed.

Lemma traces_time_sleep d : P (EvSleep d) → traces (E := E) P any (time_sleep d).
Proof.
intros Hd w. split; [|done]. unfold time_sleep.
destruct (sigint w) as [[|n]|]; simpl.
- exists []. by rewrite app_nil_r.
- exists [EvSleep d]. split; [done|]. by constructor.
- exists [EvSleep d]. split; [done|]. by constructor.
Qed.

Lemma traces_on_ext {A} (m : Eff E A) : traces P any (on_ext m).
Proof.
intros w. split; [|done]. unfold on_ext.
destruct (m (ext w)) as [r e']. exists []. simpl. by rewrite app_nil_r.
Qed.

Lemma traces_lift {A} (r : res A) : traces (E := E) P any (lift r).
Proof. intros w. split; [|done]. exists []. simpl. by rewrite app_nil_r. Qed.

Lemma traces_console_print x : traces (E := E) P any (console_print x).
Proof.
intros w. split; [|done]. exists []. unfold console_print.
destruct (render_error x); simpl; by rewrite app_nil_r.
Qed.

Lemma traces_when b (m : Eff (world E) unit) :
traces P any m → traces P any (when b m).
Proof. destruct b; [done|]. intros _. by apply traces_ret. Qed.

Lemma traces_for_each {A B} (l : list A) (body : A → B → Eff (world E) B) :
(∀ x acc, traces P any (body x acc)) →
∀ acc, traces P any (for_each l body acc).
Proof.
intros Hb. induction l as [|x l IH]; intros acc.
- by apply traces_ret.
- rewrite for_each_cons. eapply traces_bind; [apply Hb|]. intros a _. apply IH.
Qed.

Lemma traces_finally {A} (Qv : A → Prop) (m : Eff (world E) A) leave :
traces P Qv m → traces P any leave → traces P Qv (finally m leave).
Proof.
intros Hm Hl w. unfold finally.
destruct (Hm w) as [(new1 & Ht1 & HP1) Hv1].
destruct (m w) as [r w1]. simpl in *.
destruct (Hl w1) as [(new2 & Ht2 & HP2) _].
destruct (leave w1) as [q w2]. simpl in *.
assert (∃ new, trace w2 = trace w ++ new ∧ Forall P new) as Hnew.
{ exists (new1 ++ new2). rewrite Ht2, Ht1, <-app_assoc.
  split; [done|]. by apply Forall_app. }
destruct r as [a|e], q as [[]|e']; simpl; (split; [done|]); try done.
all: intros ? [= <-]; by apply Hv1.
Qed.

Lemma traces_try_except {A} (Qv : A → Prop) (m : Eff (world E) A) hk he :
traces P Qv m → traces P Qv hk → (∀ msg, traces P Qv (he msg)) →
traces P Qv (try_except m hk he).
Proof.
intros Hm Hk He w. unfold try_except.
destruct (Hm w) as [(new1 & Ht1 & HP1) Hv1].
destruct (m w) as [[a|[|c|msg]] w1]; simpl in *.
- split; [eauto|]. intros ? [= <-]. by apply Hv1.
- destruct (Hk w1) as [(new2 & Ht2 & HP2) Hv2]. split; [|done].
  exists (new1 ++ new2). rewrite Ht2, Ht1, <-app_assoc.
  split; [done|]. by apply Forall_app.
- split; [eauto|done].
- destruct (He msg w1) as [(new2 & Ht2 & HP2) Hv2]. split; [|done].
  exists (new1 ++ new2). rewrite Ht2, Ht1, <-app_assoc.
  split; [done|]. by apply Forall_app.
Qed.

End TraceFacts.

Section TraceOfRun.
Import Pathlib AudioProcessor Cli.
Context {E : Type} `{!Progress E} {parser : Rich}.

Local Abbreviation any := (λ _, True).

Lemma traces_process_step P (cb : string → Q → Eff E unit) total path names it acc :
(∀ step f, P (EvProgress step f)) → (∀ d, P (EvSleep d)) →
traces P (λ a, a = acc_after total path names acc it)
  (process_step cb total path names it acc).
Proof.
intros Hp Hs. destruct it as [i step]. unfold process_step, invoke.
eapply traces_bind with (Q1 := any).
{ eapply traces_bind with (Q1 := any); [by apply traces_log|].
  intros _ _. apply traces_on_ext. }
intros _ _. eapply traces_bind with (Q1 := any); [by apply traces_time_sleep|].
intros _ _. unfold acc_after. simpl.
destruct (i =? total - 1); by apply traces_ret.
Qed.

Lemma traces_loop P (cb : string → Q → Eff E unit) total path names l :
(∀ step f, P (EvProgress step f)) → (∀ d, P (EvSleep d)) →
∀ acc,
  traces P (λ a, a = fold_left (acc_after total path names) l acc)
    (for_each l (process_step cb total path names) acc).
Proof.
intros Hp Hs. induction l as [|it l IH]; intros acc.
- by apply traces_ret.
- rewrite for_each_cons.
  eapply traces_bind; [by apply traces_process_step|].
  intros a ->. apply IH.
Qed.

(** Whatever the callback does, a result that [process_audio] returns
  holds the stems of its input. *)
Lemma traces_process_audio file_path (cb : string → Q → Eff E unit) :
traces (returns_stems_of file_path)
  (λ r, stems r = expected_stems file_path)
  (process_audio file_path cb).
Proof.
unfold process_audio.
eapply traces_bind with (Q1 := any); [by apply traces_log|]. intros _ _.
eapply traces_bind with (Q1 := any); [apply traces_time_time|].
intros start_time _.
eapply traces_bind; [by apply traces_loop|].
intros generated_stems ->.
eapply traces_bind with (Q1 := any); [apply traces_time_time|].
intros end_time _.
eapply traces_bind with (Q1 := any); [by apply traces_log|].
intros _ _. by apply traces_ret.
Qed.

Lemma traces_show_result P verbose r :
traces (E := E) P any (show_result verbose r).
Proof.
unfold show_result, print_panel.
eapply traces_bind with (Q1 := any); [apply traces_console_print|].
intros _ _.
eapply traces_bind with (Q1 := any); [apply traces_console_print|].
intros _ _. apply traces_when.
eapply traces_bind with (Q1 := any); [apply traces_console_print|].
intros _ _.
eapply traces_bind with (Q1 := any); [|intros _ _; apply traces_console_print].
apply traces_for_each. intros [i stem] []. apply traces_console_print.
Qed.

Lemma traces_check_and_run fs audio_file verbose :
traces (returns_stems_of audio_file) any
  (check_and_run fs audio_file verbose).
Proof.
unfold check_and_run.
eapply traces_bind with (Q1 := any); [apply traces_lift|].
intros [ok msg] _.
eapply traces_bind with (Q1 := any).
{ apply traces_when. unfold reject, print_error, sys_exit.
  eapply traces_bind with (Q1 := any); [apply traces_console_print|].
  intros _ _.
  eapply traces_bind with (Q1 := any); [apply traces_console_print|].
  intros _ _. apply traces_raise. }
intros _ _. apply traces_try_except.
- unfold try_body, print_info.
  eapply traces_bind with (Q1 := any); [apply traces_console_print|].
  intros _ _.
  eapply traces_bind with (Q1 := any); [apply traces_console_print|].
  intros _ _.
  eapply traces_bind with (Q1 := any); [|intros; apply traces_show_result].
  unfold run_with_progress.
  eapply traces_bind with (Q1 := any); [apply traces_on_ext|]. intros _ _.
  apply traces_finally; [|apply traces_on_ext].
  eapply traces_bind with (Q1 := any); [apply traces_on_ext|]. intros task _.
  eapply traces_weaken; [|apply traces_process_audio]. done.
- unfold on_keyboard_interrupt, print_error, sys_exit.
  eapply traces_bind with (Q1 := any); [apply traces_console_print|].
  intros _ _.
  eapply traces_bind with (Q1 := any); [apply traces_console_print|].
  intros _ _. apply traces_raise.
- intros msg'. unfold on_exception, print_error, sys_exit.
  eapply traces_bind with (Q1 := any); [apply traces_console_print|].
  intros _ _.
  eapply traces_bind with (Q1 := any); [apply traces_console_print|].
  intros _ _.
  eapply traces_bind with (Q1 := any);
    [apply traces_when, traces_console_print|].
  intros _ _. apply traces_raise.
Qed.

End TraceOfRun.

(** ** The command: its steps *)

Section CliRun.
Import Pathlib AudioProcessor Cli.
Context {E : Type} `{!Progress E} {parser : Rich}.

Lemma separate_split fs audio_file output_dir verbose :
separate (E := E) fs audio_file output_dir verbose =
(when verbose (print_header audio_file output_dir) ;;
 check_and_run fs audio_file verbose).
Proof. reflexivity. Qed.

Lemma console_print_accepted x (w : world E) :
render_error x = None →
console_print x w =
(Returns (),
 mkWorld (ext w) (console w ++ [x]) (clock w) (sigint w) (trace w)).
Proof. intros Hx. unfold console_print. by rewrite Hx. Qed.

Lemma console_print_refused x msg (w : world E) :
render_error x = Some msg →
console_print x w = (Raises (Exception msg), w).
Proof. intros Hx. unfold console_print. by rewrite Hx. Qed.

Lemma bind_console_print {B} x (k : unit → Eff (world E) B) w :
render_error x = None →
(console_print x ≫= k) w =
k () (mkWorld (ext w) (console w ++ [x]) (clock w) (sigint w) (trace w)).
Proof. intros Hx. by rewrite bind_run, console_print_accepted. Qed.

(** Markup that passes the check is printed. *)
Lemma balanced_accepted s style :
Tags.balanced s = true → render_error (Markup s style) = None.
Proof. apply markup_error_balanced. Qed.

Lemma header_accepted :
render_error
  (Markup (PyStr.nl +:+ "[bold cyan]═══ Audio Stem Separator ═══[/bold cyan]"
           +:+ PyStr.nl) "") = None.
Proof. by apply balanced_accepted. Qed.

Lemma formats_accepted :
render_error
  (Markup (PyStr.nl +:+
           "[dim]Supported formats: .flac, .m4a, .mp3, .ogg, .wav[/dim]"
           +:+ PyStr.nl) "yellow") = None.
Proof. by apply balanced_accepted. Qed.


Lemma newline_accepted : render_error (Markup PyStr.nl "") = None.
Proof. by apply balanced_accepted. Qed.

Lemma header_run audio_file output_dir verbose (w : world E) :
when verbose (print_header audio_file output_dir) w =
(Returns (),
 mkWorld (ext w) (console w ++ header_items audio_file output_dir verbose)
   (clock w) (sigint w) (trace w)).
Proof.
destruct w as [e co cl si tr]. unfold header_items.
destruct verbose; simpl.
- unfold print_header, print_info.
  rewrite bind_console_print by apply header_accepted.
  rewrite bind_console_print by done.
  cbn [ext console clock sigint trace].
  destruct (truthy output_dir); simpl.
  + rewrite console_print_accepted by done. simpl. by rewrite <-!app_assoc.
  + unfold mret, eff_ret. by rewrite <-!app_assoc.
- unfold mret, eff_ret. by rewrite app_nil_r.
Qed.

Lemma formats_line :
PyStr.nl +:+ "[dim]Supported formats: " +:+
  PyStr.join ", " get_supported_formats +:+ "[/dim]" +:+ PyStr.nl =
PyStr.nl +:+ "[dim]Supported formats: .flac, .m4a, .mp3, .ogg, .wav[/dim]"
  +:+ PyStr.nl.
Proof. by vm_compute. Qed.

Lemma reject_run error_message (w : world E) :
reject error_message w =
(Raises (SystemExit 1),
 mkWorld (ext w) (console w ++ reject_items error_message)
   (clock w) (sigint w) (trace w)).
Proof.
destruct w as [e co cl si tr].
unfold reject, print_error, sys_exit, raise.
rewrite bind_console_print by done. rewrite formats_line.
rewrite bind_console_print by apply formats_accepted.
cbn [ext console clock sigint trace].
unfold reject_items. by rewrite <-app_assoc.
Qed.

End CliRun.

(** ** The command: what it prints and what it asks of the progress bar *)

Section SilentFacts.
Import Pathlib AudioProcessor Cli.
Context {E : Type} `{!Progress E} {parser : Rich}.

Lemma silent_ret {A} (a : A) : silent (E := E) (mret a).
Proof. by intros w. Qed.

Lemma silent_bind {A B} (m : Eff (world E) A) (k : A → Eff (world E) B) :
silent m → (∀ a, silent (k a)) → silent (m ≫= k).
Proof.
intros Hm Hk w. rewrite bind_run. specialize (Hm w).
destruct (m w) as [[a|e] w1]; simpl in *; [|done].
by rewrite Hk.
Qed.

Lemma silent_log ev : silent (E := E) (log ev).
Proof. by intros w. Qed.

Lemma silent_time_time : silent (E := E) time_time.
Proof. by intros w. Qed.

Lemma silent_time_sleep d : silent (E := E) (time_sleep d).
Proof. intros w. unfold time_sleep. by destruct (sigint w) as [[|n]|]. Qed.

Lemma silent_on_ext {A} (m : Eff E A) : silent (on_ext m).
Proof. intros w. unfold on_ext. by destruct (m (ext w)). Qed.

Lemma silent_for_each {A B} (l : list A) (body : A → B → Eff (world E) B) :
(∀ x acc, silent (body x acc)) → ∀ acc, silent (for_each l body acc).
Proof.
intros Hb. induction l as [|x l IH]; intros acc; [apply silent_ret|].
rewrite for_each_cons. by apply silent_bind.
Qed.

Lemma silent_finally {A} (m : Eff (world E) A) leave :
silent m → silent leave → silent (finally m leave).
Proof.
intros Hm Hl w. unfold finally. specialize (Hm w).
destruct (m w) as [r w1]. specialize (Hl w1).
destruct (leave w1) as [q w2]. simpl in *.
destruct r, q; simpl; congruence.
Qed.

(** [process_audio] prints nothing, whatever its callback does. *)
Lemma silent_process_audio file_path (cb : string → Q → Eff E unit) :
silent (process_audio file_path cb).
Proof.
unfold process_audio.
apply silent_bind; [apply silent_log|]. intros _.
apply silent_bind; [apply silent_time_time|]. intros start_time.
apply silent_bind.
{ apply silent_for_each. intros [i step] acc. unfold process_step, invoke.
  apply silent_bind.
  { apply silent_bind; [apply silent_log|]. intros _. apply silent_on_ext. }
  intros _. apply silent_bind; [apply silent_time_sleep|]. intros _.
  destruct (_ =? _); apply silent_ret. }
intros generated_stems.
apply silent_bind; [apply silent_time_time|]. intros end_time.
apply silent_bind; [apply silent_log|]. intros _. apply silent_ret.
Qed.

Lemma silent_run_with_progress audio_file :
silent (run_with_progress audio_file).
Proof.
unfold run_with_progress.
apply silent_bind; [apply silent_on_ext|]. intros _.
apply silent_finally; [|apply silent_on_ext].
apply silent_bind; [apply silent_on_ext|]. intros task.
apply silent_process_audio.
Qed.

End SilentFacts.

Section PrintFacts.
Import Pathlib AudioProcessor Cli.
Context {E : Type} `{!Progress E} {parser : Rich}.

Lemma add_console_nil (w : world E) : add_console w [] = w.
Proof. destruct w. unfold add_console. simpl. by rewrite app_nil_r. Qed.

Lemma add_console_app (w : world E) a b :
add_console (add_console w a) b = add_console w (a ++ b).
Proof. unfold add_console. simpl. by rewrite app_assoc. Qed.

Lemma ext_add_console (w : world E) items : ext (add_console w items) = ext w.
Proof. done. Qed.

Lemma trace_add_console (w : world E) items :
trace (add_console w items) = trace w.
Proof. done. Qed.

Lemma refused_app a b :
refused (a ++ b) =
match refused a with Some msg => Some msg | None => refused b end.
Proof.
induction a as [|x a IH]; [done|]. cbn [app refused].
by destruct (render_error x).
Qed.

Lemma printed_app a b :
printed (a ++ b) =
printed a ++ match refused a with Some _ => [] | None => printed b end.
Proof.
induction a as [|x a IH]; [done|]. cbn [app refused printed].
destruct (render_error x); [done|]. by rewrite IH.
Qed.

(** What is printed is a part of what was to be printed. *)
Lemma printed_sublist items : printed items `prefix_of` items.
Proof.
induction items as [|x items IH]; [done|]. cbn [printed].
destruct (render_error x); [apply prefix_nil|]. by apply prefix_cons.
Qed.

(** Nothing is held back when rich takes every item. *)
Lemma all_accepted items :
Forall (λ x, render_error x = None) items →
refused items = None ∧ printed items = items.
Proof.
induction 1 as [|x items Hx _ [IH1 IH2]]; [done|].
cbn [refused printed]. rewrite Hx. split; [done|]. by rewrite IH2.
Qed.


Lemma prints_ret : prints (E := E) [] (mret ()).
Proof. intros w. cbn [refused printed]. by rewrite add_console_nil. Qed.

Lemma prints_console_print x : prints (E := E) [x] (console_print x).
Proof.
intros w. cbn [refused printed]. unfold console_print.
destruct (render_error x); [by rewrite add_console_nil|done].
Qed.

Lemma prints_bind a b (m : Eff (world E) unit) (k : unit → Eff (world E) unit) :
prints a m → prints b (k ()) → prints (a ++ b) (m ≫= k).
Proof.
intros Hm Hk w. rewrite bind_run, Hm, refused_app, printed_app.
destruct (refused a); [by rewrite app_nil_r|].
by rewrite Hk, add_console_app.
Qed.

Lemma prints_when (b : bool) items (m : Eff (world E) unit) :
prints items m → prints (if b then items else []) (when b m).
Proof. destruct b; [done|]. intros _. apply prints_ret. Qed.

Lemma prints_path_lines (l : list (Z * string)) :
prints (E := E)
  ((λ it : Z * string,
      Markup ("  " +:+ pretty it.1 +:+ ". [cyan]" +:+ it.2 +:+ "[/cyan]") "")
   <$> l)
  (for_each l
     (λ '(i, stem) _,
        console_print
          (Markup ("  " +:+ pretty i +:+ ". [cyan]" +:+ stem +:+ "[/cyan]") ""))
     ()).
Proof.
induction l as [|[i stem] l IH].
- apply prints_ret.
- rewrite for_each_cons. rewrite fmap_cons.
  apply (prints_bind [_] _); [apply prints_console_print|apply IH].
Qed.

Lemma header_items_accepted audio_file output_dir verbose :
Forall (λ x, render_error x = None)
  (header_items audio_file output_dir verbose).
Proof.
unfold header_items. destruct verbose; [|done].
apply Forall_app. split.
- repeat constructor. apply header_accepted.
- destruct (truthy output_dir); by repeat constructor.
Qed.

Lemma prints_header audio_file output_dir verbose :
prints (header_items audio_file output_dir verbose)
  (when verbose (print_header (E := E) audio_file output_dir)).
Proof.
intros w.
destruct (all_accepted _ (header_items_accepted audio_file output_dir verbose))
  as [-> ->].
apply header_run.
Qed.

(** The panel names the stems by their file names. *)
Lemma stem_lines_eq audio_file :
PyStr.join PyStr.nl
  ((λ stem, "[white]- [cyan]" +:+ name (Path stem) +:+ "[/cyan]")
   <$> expected_stems audio_file) =
stem_lines_of audio_file.
Proof.
unfold stem_lines_of, expected_stems. rewrite <-list_fmap_compose.
f_equal. apply list_fmap_ext. intros _ label Hl%list_elem_of_lookup_2.
simpl. apply label_no_sep in Hl.
by destruct (stem_file_parse audio_file label Hl) as [_ ->].
Qed.

Lemma prints_show_result audio_file verbose r :
stems r = expected_stems audio_file →
prints (result_items audio_file verbose r) (show_result (E := E) verbose r).
Proof.
intros Hst. unfold show_result, print_panel, result_items. rewrite Hst.
rewrite stem_lines_eq.
apply (prints_bind [_] _); [apply prints_console_print|].
apply (prints_bind [_] _); [apply prints_console_print|].
apply prints_when.
apply (prints_bind [_] _); [apply prints_console_print|].
apply prints_bind; [apply prints_path_lines|apply prints_console_print].
Qed.











End PrintFacts.

Section CommandRuns.
Import Pathlib AudioProcessor Cli.
Context {E : Type} `{!Progress E} {parser : Rich}.

(** A result that leaves the progress block holds the stems of the input. *)
Lemma run_with_progress_stems audio_file (w : world E) r :
(run_with_progress audio_file w).1 = Returns r →
stems r = expected_stems audio_file.
Proof.
assert (traces (returns_stems_of audio_file)
          (λ r, stems r = expected_stems audio_file)
          (run_with_progress audio_file)) as Ht.
{ unfold run_with_progress.
  eapply traces_bind with (Q1 := λ _, True); [apply traces_on_ext|].
  intros _ _. apply traces_finally; [|apply traces_on_ext].
  eapply traces_bind with (Q1 := λ _, True); [apply traces_on_ext|].
  intros task _. apply traces_process_audio. }
intros Hr. by apply (Ht w).
Qed.

(** What an accepting answer of the validator says. *)
Lemma valid_inv fs audio_file :
fst <$> validate_audio_file fs audio_file = Returns true →
validate_audio_file fs audio_file = Returns (true, "") ∧
fs (str (Path audio_file)) = RegularFile ∧
PyStr.lower (suffix (Path audio_file)) ∈ SUPPORTED_EXTENSIONS ∧
suffix (Path audio_file) ≠ "".
Proof.
destruct (validate_audio_file fs audio_file) as [[ok reason]|e] eqn:Hv;
  [|done].
intros [= ->]. destruct (validate_accepts_inv _ _ _ Hv) as (-> & Hk & Hin).
split; [done|]. split; [done|]. split; [done|].
intros Hs. rewrite Hs in Hin. by vm_compute in Hin.
Qed.

Lemma bind_lift {A B} (r : res A) (k : A → Eff (world E) B) w :
(lift r ≫= k) w =
match r with
| Returns a => k a w
| Raises e => (Raises e, w)
end.
Proof. rewrite bind_run. by destruct r. Qed.

Lemma on_keyboard_interrupt_run (w : world E) :
on_keyboard_interrupt w =
(Raises (SystemExit 130), add_console w interrupt_items).
Proof.
unfold on_keyboard_interrupt, print_error, sys_exit, raise.
rewrite bind_console_print by apply newline_accepted.
rewrite bind_console_print by done.
unfold add_console, interrupt_items.
cbn [ext console clock sigint trace]. by rewrite <-app_assoc.
Qed.

Lemma on_exception_run verbose msg (w : world E) :
on_exception verbose msg w =
(Raises (SystemExit 1), add_console w (error_items verbose msg)).
Proof.
unfold on_exception, print_error, sys_exit, raise.
rewrite bind_console_print by apply newline_accepted.
rewrite bind_console_print by done.
unfold error_items, add_console.
destruct verbose; cbn [when].
- rewrite bind_console_print by done.
  cbn [ext console clock sigint trace]. by rewrite <-!app_assoc.
- rewrite bind_run. unfold mret, eff_ret. cbn beta iota.
  cbn [ext console clock sigint trace]. by rewrite <-!app_assoc.
Qed.

(** The command on a file that is turned down. *)
Lemma separate_invalid_run fs audio_file output_dir verbose (w : world E)
  reason :
validate_audio_file fs audio_file = Returns (false, reason) →
separate fs audio_file output_dir verbose w =
(Raises (SystemExit 1),
 add_console w
   (header_items audio_file output_dir verbose ++ reject_items reason)).
Proof.
intros Hv. rewrite separate_split, bind_run, header_run.
unfold check_and_run. rewrite bind_lift, Hv.
cbn [negb when]. rewrite bind_run, reject_run.
unfold add_console. cbn [ext console clock sigint trace].
by rewrite <-app_assoc.
Qed.


(** The command on a file that is accepted, step by step. *)
Lemma separate_valid_run fs audio_file output_dir verbose (w : world E) :
fst <$> validate_audio_file fs audio_file = Returns true →
separate fs audio_file output_dir verbose w =
let w2 :=
  add_console w
    (header_items audio_file output_dir verbose ++
     [ Text ("ℹ Processing: " +:+ name (Path audio_file)) "bold blue";
       Newline ]) in
let o := (run_with_progress audio_file w2).1 in
(command_outcome audio_file verbose o,
 add_console (run_with_progress audio_file w2).2
   (outcome_items audio_file verbose o)).
Proof.
intros (Hv & _)%valid_inv. rewrite separate_split, bind_run, header_run.
unfold check_and_run. rewrite bind_lift, Hv.
cbn [negb when]. rewrite bind_run.
unfold mret at 1, eff_ret at 1. cbn beta iota.
set (w2 := add_console w
  (header_items audio_file output_dir verbose ++
   [ Text ("ℹ Processing: " +:+ name (Path audio_file)) "bold blue";
     Newline ])).
unfold try_except, try_body, print_info.
rewrite bind_console_print by done.
rewrite bind_console_print by done.
match goal with
| |- context [(run_with_progress audio_file ≫= ?k) ?w0] =>
    assert (w0 = w2) as ->
      by (subst w2; unfold add_console;
          cbn [ext console clock sigint trace]; f_equal;
          by rewrite <-!app_assoc)
end.
rewrite bind_run.
pose proof (run_with_progress_stems audio_file w2) as Hst.
destruct (run_with_progress audio_file w2) as [[r|[|c|msg']] w3];
  cbn [fst snd] in *.
- rewrite (prints_show_result audio_file verbose r (Hst r eq_refl) w3).
  unfold command_outcome, outcome_items.
  destruct (refused (result_items audio_file verbose r)) as [msg|].
  + by rewrite on_exception_run, add_console_app.
  + by rewrite app_nil_r.
- by rewrite on_keyboard_interrupt_run.
- by rewrite add_console_nil.
- by rewrite on_exception_run.
Qed.

(** The progress block is the same after the first lines are printed. *)
Lemma run_with_progress_after_print audio_file (w : world E) items :
(run_with_progress audio_file (add_console w items)).1 =
  (run_with_progress audio_file w).1 ∧
ext (run_with_progress audio_file (add_console w items)).2 =
  ext (run_with_progress audio_file w).2 ∧
trace (run_with_progress audio_file (add_console w items)).2 =
  trace (run_with_progress audio_file w).2 ∧
console (run_with_progress audio_file (add_console w items)).2 =
  console w ++ items.
Proof.
destruct (blind_run_with_progress audio_file
            (console w ++ items) (console w) (add_console w items) w)
  as (Hr & He & _ & _ & Ht & _).
{ repeat split. exists []. by rewrite !app_nil_r. }
split; [done|]. split; [done|]. split; [done|].
by rewrite silent_run_with_progress.
Qed.

(** The command on an accepted file, in terms of the progress block run
  before anything is printed. *)
Lemma separate_valid_facts fs audio_file output_dir verbose (w : world E) :
fst <$> validate_audio_file fs audio_file = Returns true →
let run := separate fs audio_file output_dir verbose w in
let block := run_with_progress audio_file w in
run.1 = command_outcome audio_file verbose block.1 ∧
ext run.2 = ext block.2 ∧
trace run.2 = trace block.2 ∧
console run.2 =
  console w ++ header_items audio_file output_dir verbose ++
  [ Text ("ℹ Processing: " +:+ name (Path audio_file)) "bold blue";
    Newline ] ++
  outcome_items audio_file verbose block.1.
Proof.
intros Hv run block. subst run block.
rewrite separate_valid_run by done. cbn zeta. cbn [fst snd].
rewrite ext_add_console, trace_add_console.
destruct (run_with_progress_after_print audio_file w
            (header_items audio_file output_dir verbose ++
             [ Text ("ℹ Processing: " +:+ name (Path audio_file)) "bold blue";
               Newline ])) as (Hr & He & Ht & Hc).
rewrite Hr. split; [done|]. split; [done|]. split; [done|].
unfold add_console at 1. cbn [console]. rewrite Hc.
by rewrite <-!app_assoc.
Qed.


Lemma run_calls_updates task e :
run_calls (update_progress task) expected_calls e =
run_updates task bar_updates e.
Proof. reflexivity. Qed.

Lemma run_calls_updates_take task n e :
run_calls (update_progress task) (take n expected_calls) e =
run_updates task (take n bar_updates) e.
Proof.
do 8 (destruct n as [|n]; [reflexivity|]). reflexivity.
Qed.

Lemma bar_updates_lookup j d c :
bar_updates !! j = Some (d, c) →
∃ step f, expected_calls !! j = Some (step, f) ∧
          d = "[cyan]" +:+ step ∧ c = py_int (f * 100).
Proof.
do 7 (destruct j as [|j];
      [intros [= <- <-]; eexists _, _; repeat split; reflexivity|]).
done.
Qed.

Lemma bar_prefix_inv n e task e3 :
bar_prefix n e = (Returns task, e3) →
∃ e1 e2,
  progress_start e = (Returns (), e1) ∧
  progress_add_task "[cyan]Initializing..." 100 e1 = (Returns task, e2) ∧
  run_updates task (take n bar_updates) e2 = (Returns (), e3).
Proof.
unfold bar_prefix. intros Hpre. rewrite bind_run in Hpre.
destruct (progress_start e) as [[[]|ex0] e1]; [|done].
rewrite bind_run in Hpre.
destruct (progress_add_task "[cyan]Initializing..." 100 e1)
  as [[task'|ex0] e2] eqn:Hadd; [|done].
rewrite bind_run in Hpre.
destruct (run_updates task' (take n bar_updates) e2)
  as [[[]|ex0] e3'] eqn:Hup; [|done].
injection Hpre as -> ->. by exists e1, e2.
Qed.

(** The progress block when all goes well. *)
Lemma run_with_progress_returns audio_file (w : world E) :
quiet_for 7 (sigint w) →
(bar_script (ext w)).1 = Returns () →
run_with_progress audio_file w =
let r := mkResult (expected_stems audio_file) (duration_read (clock w)) in
(Returns r,
 mkWorld (bar_script (ext w)).2 (console w) (clock_from 2 (clock w))
   (sigint_after 7 (sigint w))
   (trace w ++ EvEnter audio_file :: events_upto expected_calls
      ++ [EvReturn r])).
Proof.
intros Hq Hbar. unfold bar_script in Hbar |- *.
rewrite bind_run in Hbar |- *.
unfold run_with_progress. rewrite bind_run. unfold on_ext at 1.
destruct (progress_start (ext w)) as [[[]|ex] e1]; [|done].
cbn beta iota in Hbar |- *. rewrite bind_run in Hbar |- *.
unfold finally. rewrite bind_run. unfold on_ext at 1.
cbn [ext console clock sigint trace].
destruct (progress_add_task "[cyan]Initializing..." 100 e1)
  as [[task|ex] e2]; [|done].
cbn beta iota in Hbar |- *. rewrite bind_run in Hbar |- *.
rewrite <-run_calls_updates in Hbar |- *.
destruct (run_calls (update_progress task) expected_calls e2)
  as [[[]|ex] e3] eqn:Hup; [|done].
cbn beta iota in Hbar |- *.
rewrite (process_audio_quiet_run (update_progress task) audio_file
           (mkWorld e2 (console w) (clock w) (sigint w) (trace w)) e3 Hq Hup).
cbn zeta. unfold on_ext. cbn [ext console clock sigint trace].
by destruct (progress_stop e3) as [[[]|ex] e4].
Qed.

(** The progress block when [process_audio] raises. *)
Lemma run_with_progress_raises audio_file (w : world E) e1 task e2 ex wp e4 :
progress_start (ext w) = (Returns (), e1) →
progress_add_task "[cyan]Initializing..." 100 e1 = (Returns task, e2) →
process_audio audio_file (update_progress task)
  (mkWorld e2 (console w) (clock w) (sigint w) (trace w)) = (Raises ex, wp) →
progress_stop (ext wp) = (Returns (), e4) →
run_with_progress audio_file w =
(Raises ex, mkWorld e4 (console wp) (clock wp) (sigint wp) (trace wp)).
Proof.
intros Hstart Hadd Hrun Hstop.
unfold run_with_progress. rewrite bind_run. unfold on_ext at 1.
rewrite Hstart. cbn beta iota. unfold finally. rewrite bind_run.
unfold on_ext at 1. cbn [ext console clock sigint trace].
rewrite Hadd. cbn beta iota. rewrite Hrun. unfold on_ext.
by rewrite Hstop.
Qed.

(** The progress block when Ctrl-C comes during the pause of stage [k]. *)
Lemma run_with_progress_interrupted audio_file (w : world E) k task e3 e4 :
sigint w = Some k →
(k < 7)%nat →
bar_prefix (S k) (ext w) = (Returns task, e3) →
progress_stop e3 = (Returns (), e4) →
∃ wp,
  run_with_progress audio_file w = (Raises KeyboardInterrupt, wp) ∧
  ext wp = e4 ∧
  returns_of (drop (length (trace w)) (trace wp)) = [] ∧
  progress_calls (drop (length (trace w)) (trace wp)) =
    take (S k) expected_calls.
Proof.
intros Hs Hk Hpre Hstop.
destruct (expected_calls !! k) as [[step f]|] eqn:Hlk.
2:{ apply lookup_ge_None in Hlk. simpl in Hlk. lia. }
apply bar_prefix_inv in Hpre as (e1 & e2 & Hstart & Hadd & Hup).
rewrite <-run_calls_updates_take in Hup.
pose proof (process_audio_interrupt_run (update_progress task) audio_file
              (mkWorld e2 (console w) (clock w) (sigint w) (trace w))
              k step f e3 Hs Hlk Hup) as Hrun.
cbn [ext console clock sigint trace] in Hrun.
pose proof (run_with_progress_raises audio_file w e1 task e2
              KeyboardInterrupt _ e4 Hstart Hadd Hrun Hstop) as Hrwp.
eexists. split; [exact Hrwp|]. split; [done|]. cbn [trace].
by destruct (cut_trace_facts (trace w) audio_file k step f Hlk).
Qed.

(** The command when the progress block raises. *)
Lemma separate_block_raises fs audio_file output_dir verbose
  (w : world E) ex wp :
fst <$> validate_audio_file fs audio_file = Returns true →
run_with_progress audio_file w = (Raises ex, wp) →
let run := separate fs audio_file output_dir verbose w in
run.1 =
  match ex with
  | KeyboardInterrupt => Raises (SystemExit 130)
  | Exception _ => Raises (SystemExit 1)
  | SystemExit c => Raises (SystemExit c)
  end ∧
ext run.2 = ext wp ∧
trace run.2 = trace wp ∧
console run.2 =
  console w ++ header_items audio_file output_dir verbose ++
  [ Text ("ℹ Processing: " +:+ name (Path audio_file)) "bold blue";
    Newline ] ++ outcome_items audio_file verbose (Raises ex).
Proof.
intros Hv Hrun run. subst run.
destruct (separate_valid_facts fs audio_file output_dir verbose w Hv)
  as (H1 & H2 & H3 & H4).
rewrite Hrun in H1, H2, H3, H4. cbn [fst snd] in *.
split; [|done]. rewrite H1. by destruct ex.
Qed.

End CommandRuns.

(** * The claims *)

Section ProcessClaims.
Import Pathlib AudioProcessor.
Context {E : Type}.

(** C1. When no interrupt is pending and the progress callback returns
  normally on the seven stages, [process_audio] returns, and the events
  it produced before its return hold exactly seven progress calls: one
  per entry of [PROCESSING_STEPS], in that order, the call of index [i]
  with fraction [(i+1)/7], the fractions strictly increasing; no return
  is among these events; the callback's state is the one the seven
  calls leave. *)
Theorem process_audio_progress_sequence
  (cb : string → Q → Eff E unit) (file_path : string) (w : world E) :
sigint w = None →
(run_calls cb expected_calls (ext w)).1 = Returns () →
∃ r w' new,
  process_audio file_path cb w = (Returns r, w') ∧
  trace w' = trace w ++ new ++ [EvReturn r] ∧
  returns_of new = [] ∧
  length (progress_calls new) = 7%nat ∧
  (progress_calls new).*1 = PROCESSING_STEPS ∧
  (∀ (i : nat) step,
     PROCESSING_STEPS !! i = Some step →
     progress_calls new !! i = Some (step, (Z.of_nat (i + 1) # 7)%Q)) ∧
  StronglySorted Qlt (progress_calls new).*2 ∧
  ext w' = (run_calls cb expected_calls (ext w)).2.
Proof.
intros Hs Hcb.
destruct (run_calls cb expected_calls (ext w)) as [[[]|ex] e'] eqn:Hrun;
  [|done].
rewrite (process_audio_returns cb file_path w e' Hs Hrun).
eexists _, _, ([EvEnter file_path] ++ run_events).
split; [done|]. cbn [trace ext snd].
split; [by rewrite <-app_assoc|].
split; [done|]. split; [done|]. split; [done|].
split.
{ intros i step Hi.
  do 7 (destruct i as [|i]; [by inversion Hi|]). done. }
split; [|done].
repeat constructor.
Qed.

(** C7. [process_audio] takes any path string. When no interrupt is
  pending and the progress callback returns normally on the seven
  stages, it returns a result with a list of four stems and a duration
  (the reading of the clock at the end less the one at the start); and
  an exception that leaves it, if any, is the one its callback raised. *)
Theorem process_audio_completes
  (cb : string → Q → Eff E unit) (file_path : string) (w : world E) :
sigint w = None →
((run_calls cb expected_calls (ext w)).1 = Returns () →
 ∃ r w',
   process_audio file_path cb w = (Returns r, w') ∧
   length (stems r) = 4%nat ∧
   duration r = (clock w 1%nat - clock w 0%nat)%Q) ∧
(∀ ex, (process_audio file_path cb w).1 = Raises ex →
       (run_calls cb expected_calls (ext w)).1 = Raises ex).
Proof.
intros Hs.
destruct (run_calls cb expected_calls (ext w)) as [[[]|ex0] e'] eqn:Hrun.
- rewrite (process_audio_returns cb file_path w e' Hs Hrun).
  split; [|done]. intros _. eexists _, _. split; [done|].
  by split.
- split; [done|]. intros ex Hex.
  rewrite (process_audio_raises cb file_path w ex0 e' Hs Hrun) in Hex.
  by inversion Hex.
Qed.

(** C2. When [process_audio] runs to its end (no interrupt, a callback
  that returns normally), its result holds exactly four stems, for the
  labels vocals, drums, bass and other in this order. Each stem is a
  path in the parent directory of the input whose file name is the
  input's stem, an underscore, the label and the input's suffix: below
  a directory it reads parent, slash, name; for an input without a
  directory part it is the root, if any, followed by the name. The stem
  and the suffix make up the input's file name. The list is still empty
  after any number of stages short of the last. *)
Theorem process_audio_stems
  (cb : string → Q → Eff E unit) (file_path : string) (w : world E) :
sigint w = None →
(run_calls cb expected_calls (ext w)).1 = Returns () →
let path := Path file_path in
∃ r w',
  process_audio file_path cb w = (Returns r, w') ∧
  stems r =
    [ stem_file file_path "vocals"; stem_file file_path "drums";
      stem_file file_path "bass"; stem_file file_path "other" ] ∧
  (∀ label, label ∈ ["vocals"; "drums"; "bass"; "other"] →
     parent (Path (stem_file file_path label)) = parent path ∧
     name (Path (stem_file file_path label)) =
       stem path +:+ "_" +:+ label +:+ suffix path ∧
     (parts (parent path) ≠ [] →
        stem_file file_path label =
        str (parent path) +:+ "/" +:+
        stem path +:+ "_" +:+ label +:+ suffix path) ∧
     (parts (parent path) = [] →
        stem_file file_path label =
        root path +:+ stem path +:+ "_" +:+ label +:+ suffix path)) ∧
  stem path +:+ suffix path = name path ∧
  (∀ (n : nat) w0 acc w0',
     (n < 7)%nat →
     for_each (take n (enumerate PROCESSING_STEPS))
       (process_step cb 7 path ["vocals"; "drums"; "bass"; "other"])
       [] w0 = (Returns acc, w0') →
     acc = []).
Proof.
intros Hs Hcb path.
destruct (run_calls cb expected_calls (ext w)) as [[[]|ex] e'] eqn:Hrun;
  [|done].
rewrite (process_audio_returns cb file_path w e' Hs Hrun).
eexists _, _. split; [done|]. split; [done|].
split; [|split; [apply stem_suffix_name|]].
- intros label Hl.
  assert (PyStr.contains sep label = false) as Hsep.
  { repeat (apply elem_of_cons in Hl as [->|Hl]; [done|]).
    by apply elem_of_nil in Hl. }
  destruct (stem_file_parse file_path label Hsep) as [Hp Hn].
  destruct (stem_file_string file_path label Hsep) as [Hd Hr].
  split; [done|]. split; [done|]. split; [exact Hd|exact Hr].
- intros n w0 acc w0' Hn Hloop.
  eapply loop_keeps_acc; [|exact Hloop].
  do 7 (destruct n as [|n]; [by repeat constructor|]). lia.
Qed.

End ProcessClaims.

(** The two runs of the specification's examples. *)
Example stems_song_mp3 :
  expected_stems "song.mp3" =
  ["song_vocals.mp3"; "song_drums.mp3"; "song_bass.mp3"; "song_other.mp3"].
Proof. reflexivity. Qed.

Example stems_track_flac :
  expected_stems "/a/b/track.flac" =
  [ "/a/b/track_vocals.flac"; "/a/b/track_drums.flac";
    "/a/b/track_bass.flac"; "/a/b/track_other.flac" ].
Proof. reflexivity. Qed.

Lemma process_audio_progress_sequence_witness :
  sigint (world0 ([] : list (string * Q))) = None ∧
  (run_calls recorder expected_calls []).1 = Returns () ∧
  ∃ r w' new,
    AudioProcessor.process_audio "song.mp3" recorder (world0 []) = (Returns r, w') ∧
    trace w' = new ++ [EvReturn r] ∧
    length (progress_calls new) = 7%nat ∧
    (progress_calls new).*1 = AudioProcessor.PROCESSING_STEPS ∧
    ext w' = expected_calls.
Proof.
  split; [reflexivity|]. split; [reflexivity|].
  destruct (process_audio_progress_sequence recorder "song.mp3" (world0 [])
              eq_refl eq_refl)
    as (r & w' & new & Hrun & Htr & _ & Hlen & Hsteps & _ & _ & Hext).
  exists r, w', new. repeat split; assumption.
Defined.

Lemma process_audio_completes_witness :
  sigint (world0 ([] : list (string * Q))) = None ∧
  (run_calls recorder expected_calls []).1 = Returns () ∧
  ∃ r w',
    AudioProcessor.process_audio "no such file" recorder (world0 []) = (Returns r, w') ∧
    length (stems r) = 4%nat ∧ duration r = (clock0 1%nat - clock0 0%nat)%Q.
Proof.
  split; [reflexivity|]. split; [reflexivity|].
  exact (proj1 (process_audio_completes recorder "no such file" (world0 [])
                  eq_refl) eq_refl).
Defined.

Lemma process_audio_stems_witness :
  sigint (world0 ([] : list (string * Q))) = None ∧
  (run_calls recorder expected_calls []).1 = Returns () ∧
  ∃ r w',
    AudioProcessor.process_audio "song.mp3" recorder (world0 []) = (Returns r, w') ∧
    stems r =
      ["song_vocals.mp3"; "song_drums.mp3"; "song_bass.mp3"; "song_other.mp3"].
Proof.
  split; [reflexivity|]. split; [reflexivity|].
  destruct (process_audio_stems recorder "song.mp3" (world0 []) eq_refl eq_refl)
    as (r & w' & Hrun & Hstems & _).
  exists r, w'. split; [exact Hrun|]. rewrite Hstems. reflexivity.
Defined.

Section ValidatorClaims.
Import Pathlib AudioProcessor.

(** C3, as amended. When [os.stat] fails on the path with an error that
  does not mean absence, [validate_audio_file] does not answer: that
  [OSError] leaves it. In every other case it answers, and it answers
  invalid exactly when the path does not exist, or exists and is not a
  regular file, or has an extension that matches no supported one when
  case is ignored; the reason is then not empty (file not found, not a
  file, unsupported extension, tried in this order). Otherwise, for a
  regular file with a supported extension in any letter case, it answers
  valid with the empty reason. *)
Theorem validate_audio_file_spec (fs : filesystem) (file_path : string) :
let path := Path file_path in
(∀ msg, fs (str path) = StatError msg →
   validate_audio_file fs file_path = Raises (Exception msg)) ∧
((∀ msg, fs (str path) ≠ StatError msg) →
 ∃ ok reason,
   validate_audio_file fs file_path = Returns (ok, reason) ∧
   (ok = false ↔
      fs (str path) = Missing ∨
      (fs (str path) ≠ Missing ∧ fs (str path) ≠ RegularFile) ∨
      ¬ supported_ci (suffix path)) ∧
   (ok = false → reason ≠ "") ∧
   (ok = true →
      reason = "" ∧ fs (str path) = RegularFile ∧
      supported_ci (suffix path)) ∧
   (fs (str path) = Missing → reason = "File not found: " +:+ file_path) ∧
   (fs (str path) ≠ Missing → fs (str path) ≠ RegularFile →
      reason = "Path is not a file: " +:+ file_path) ∧
   (fs (str path) = RegularFile → ¬ supported_ci (suffix path) →
      reason = unsupported_reason (suffix path))).
Proof.
intros path. split; [intros msg Hk; by apply validate_stat_error|].
intros Hstat.
destruct (fs (str path)) eqn:Hk.
- eexists _, _. split; [by apply validate_missing|].
  repeat split; try done; auto.
- destruct (decide (PyStr.lower (suffix path) ∈ SUPPORTED_EXTENSIONS))
    as [Hin|Hout].
  + eexists _, _. split; [by apply validate_supported|].
    pose proof (proj1 (supported_ci_iff _) Hin) as Hci.
    repeat split; try done.
    intros [?|[[_ ?]|?]]; done.
  + eexists _, _. split; [by apply validate_unsupported|].
    assert (¬ supported_ci (suffix path)) as Hci
      by (by rewrite <-supported_ci_iff).
    repeat split; try done; auto.
- eexists _, _. split; [apply validate_not_file; by left|].
  repeat split; try done. intros _. right. by left.
- eexists _, _. split; [apply validate_not_file; by right|].
  repeat split; try done. intros _. right. by left.
- by destruct (Hstat msg).
Qed.

(** C4. For an existing regular file whose extension is not supported, the
  reason names the extension and then lists the five supported ones in
  lexicographic order: .flac, .m4a, .mp3, .ogg, .wav. *)
Theorem validate_unsupported_lists_formats (fs : filesystem) (file_path : string) :
fs (str (Path file_path)) = RegularFile →
¬ supported_ci (suffix (Path file_path)) →
validate_audio_file fs file_path =
  Returns
    (false,
     "Unsupported file extension: " +:+ suffix (Path file_path) +:+ PyStr.nl +:+
     "Supported formats: " +:+ PyStr.join ", " sorted_formats) ∧
sorted_formats = sorted SUPPORTED_EXTENSIONS ∧
StronglySorted (strict String.le) sorted_formats ∧
(∀ x, x ∈ sorted_formats ↔ x ∈ SUPPORTED_EXTENSIONS).
Proof.
intros Hk Hci. rewrite <-supported_ci_iff in Hci.
split; [by rewrite validate_unsupported|].
rewrite <-sorted_supported.
destruct (sorted_spec SUPPORTED_EXTENSIONS) as (Hs & Hn & _ & Hm).
split; [done|]. split; [by apply sorted_strict|done].
Qed.

(** C8. [get_supported_formats] returns the five members of the set of
  supported extensions, in lexicographic order and without repetition,
  in whatever order the set hands them out. *)
Theorem get_supported_formats_spec :
get_supported_formats = [".flac"; ".m4a"; ".mp3"; ".ogg"; ".wav"] ∧
length get_supported_formats = 5%nat ∧
StronglySorted (strict String.le) get_supported_formats ∧
NoDup get_supported_formats ∧
(∀ x, x ∈ get_supported_formats ↔ x ∈ SUPPORTED_EXTENSIONS) ∧
(∀ l, l ≡ₚ elements SUPPORTED_EXTENSIONS →
      merge_sort String.le l = get_supported_formats).
Proof.
unfold get_supported_formats.
destruct (sorted_spec SUPPORTED_EXTENSIONS) as (Hs & Hn & Hl & Hm).
split; [apply sorted_supported|].
split; [by rewrite sorted_supported|].
split; [by apply sorted_strict|].
split; [done|]. split; [done|].
apply sorted_any_order.
Qed.

(** C10. For an existing regular file whose name has no suffix, which
  includes every name that holds no dot and every name whose single dot
  is its first character, [validate_audio_file] answers invalid with the
  unsupported-extension reason in which the extension shown is the empty
  string, whatever the name ends in. *)
Theorem validate_no_extension (fs : filesystem) (file_path : string) :
fs (str (Path file_path)) = RegularFile →
(suffix (Path file_path) = "" ∨
 PyStr.contains dot (name (Path file_path)) = false ∨
 ∃ rest, name (Path file_path) = String dot rest ∧
         PyStr.contains dot rest = false) →
suffix (Path file_path) = "" ∧
validate_audio_file fs file_path =
  Returns
    (false,
     "Unsupported file extension: " +:+ "" +:+ PyStr.nl +:+
     "Supported formats: .flac, .m4a, .mp3, .ogg, .wav").
Proof.
intros Hk Hname.
assert (suffix (Path file_path) = "") as Hsuf.
{ destruct Hname as [H|[H|(rest & Hn & H)]].
  - done.
  - by apply suffix_no_dot.
  - by eapply suffix_leading_dot. }
split; [done|].
rewrite validate_unsupported; [by rewrite Hsuf|done|].
rewrite Hsuf. by vm_compute.
Qed.

End ValidatorClaims.

Example validate_upper_case :
  AudioProcessor.validate_audio_file fs0 "/music/LIVE.FlaC" = Returns (true, "").
Proof. reflexivity. Qed.

Example validate_directory :
  AudioProcessor.validate_audio_file fs0 "/music/" =
  Returns (false, "Path is not a file: /music/").
Proof. reflexivity. Qed.

(** C3 as the claim states it fails: on a path in a directory that may
    not be searched, [os.stat] fails with [EACCES], and the validator
    returns no answer at all; the error leaves it. *)
Lemma validate_audio_file_not_total :
  fs0 (Pathlib.str (Pathlib.Path "/locked/song.mp3")) =
    StatError "[Errno 13] Permission denied: '/locked/song.mp3'" ∧
  AudioProcessor.validate_audio_file fs0 "/locked/song.mp3" =
    Raises (Exception "[Errno 13] Permission denied: '/locked/song.mp3'") ∧
  ¬ ∃ ok reason,
      AudioProcessor.validate_audio_file fs0 "/locked/song.mp3" =
      Returns (ok, reason).
Proof.
  split; [reflexivity|]. split; [reflexivity|].
  intros (ok & reason & H). vm_compute in H. discriminate H.
Qed.

Lemma validate_audio_file_spec_witness :
  (∀ msg, fs0 (Pathlib.str (Pathlib.Path "/music/song.mp3")) ≠ StatError msg) ∧
  ∃ ok reason,
    AudioProcessor.validate_audio_file fs0 "/music/song.mp3" =
      Returns (ok, reason) ∧
    (ok = true → reason = "").
Proof.
  assert (∀ msg, fs0 (Pathlib.str (Pathlib.Path "/music/song.mp3"))
                 ≠ StatError msg) as Hstat by (intros msg; discriminate).
  split; [exact Hstat|].
  destruct (proj2 (validate_audio_file_spec fs0 "/music/song.mp3") Hstat)
    as (ok & reason & Hv & _ & _ & Hok & _).
  exists ok, reason. split; [exact Hv|]. intros H. exact (proj1 (Hok H)).
Defined.

Lemma validate_unsupported_lists_formats_witness :
  fs0 (Pathlib.str (Pathlib.Path "/music/notes.txt")) = RegularFile ∧
  ¬ supported_ci (Pathlib.suffix (Pathlib.Path "/music/notes.txt")) ∧
  AudioProcessor.validate_audio_file fs0 "/music/notes.txt" =
    Returns
      (false,
       "Unsupported file extension: .txt" +:+ PyStr.nl +:+
       "Supported formats: .flac, .m4a, .mp3, .ogg, .wav").
Proof.
  assert (¬ supported_ci (Pathlib.suffix (Pathlib.Path "/music/notes.txt")))
    as Hci.
  { rewrite <-supported_ci_iff. by vm_compute. }
  split; [reflexivity|]. split; [exact Hci|].
  exact (proj1 (validate_unsupported_lists_formats fs0 "/music/notes.txt"
                  eq_refl Hci)).
Defined.

Lemma validate_no_extension_witness :
  fs0 (Pathlib.str (Pathlib.Path "/music/.mp3")) = RegularFile ∧
  Pathlib.name (Pathlib.Path "/music/.mp3") = ".mp3" ∧
  Pathlib.suffix (Pathlib.Path "/music/.mp3") = "" ∧
  AudioProcessor.validate_audio_file fs0 "/music/.mp3" =
    Returns
      (false,
       "Unsupported file extension: " +:+ PyStr.nl +:+
       "Supported formats: .flac, .m4a, .mp3, .ogg, .wav").
Proof.
  split; [reflexivity|]. split; [reflexivity|].
  apply (validate_no_extension fs0 "/music/.mp3" eq_refl).
  right. right. exists "mp3". split; reflexivity.
Defined.

Section CliClaims.
Import Pathlib AudioProcessor Cli.
Context {E : Type} `{!Progress E} {parser : Rich}.

Lemma expected_stems_parent audio_file :
Forall (λ s, parent (Path s) = parent (Path audio_file))
  (expected_stems audio_file).
Proof.
unfold expected_stems. rewrite Forall_fmap.
repeat constructor; simpl; by apply stem_file_parse.
Qed.

Lemma header_sim audio_file od1 od2 verbose (w : world E) :
console_sim
  (console w ++ header_items audio_file od1 verbose)
  (console w ++ header_items audio_file od2 verbose)
  (when verbose (print_header audio_file od1) w).2
  (when verbose (print_header audio_file od2) w).2.
Proof.
rewrite !header_run. repeat split. exists []. by rewrite !app_nil_r.
Qed.

(** The function does not look at [output_dir] but to print it. *)
Lemma separate_output_dir fs audio_file od1 od2 verbose (w : world E) :
let run1 := separate fs audio_file od1 verbose w in
let run2 := separate fs audio_file od2 verbose w in
run1.1 = run2.1 ∧
ext run1.2 = ext run2.2 ∧
clock run1.2 = clock run2.2 ∧
sigint run1.2 = sigint run2.2 ∧
trace run1.2 = trace run2.2 ∧
(∃ rest,
   console run1.2 = console w ++ header_items audio_file od1 verbose ++ rest ∧
   console run2.2 = console w ++ header_items audio_file od2 verbose ++ rest) ∧
(∃ new,
   trace run1.2 = trace w ++ new ∧
   ∀ r, EvReturn r ∈ new →
        stems r = expected_stems audio_file ∧
        Forall (λ s, parent (Path s) = parent (Path audio_file)) (stems r)).
Proof.
intros run1 run2. subst run1 run2. rewrite !separate_split, !bind_run.
pose proof (header_sim audio_file od1 od2 verbose w) as Hsim.
rewrite !header_run in Hsim |- *. cbn [snd] in Hsim. cbn beta iota.
set (w1 := mkWorld _ (console w ++ header_items audio_file od1 verbose) _ _ _) in *.
set (w2 := mkWorld _ (console w ++ header_items audio_file od2 verbose) _ _ _) in *.
destruct (blind_check_and_run fs audio_file verbose _ _ _ _ Hsim)
  as (Hr & He & Hc & Hs & Ht & rest & Hc1 & Hc2).
split; [done|]. split; [done|]. split; [done|]. split; [done|].
split; [done|]. split.
{ exists rest. by rewrite Hc1, Hc2, <-!app_assoc. }
destruct (traces_check_and_run fs audio_file verbose w1)
  as [(new & Hnew & HP) _].
exists new. split.
{ by rewrite Hnew. }
intros r Hin. rewrite Forall_forall in HP. specialize (HP _ Hin).
simpl in HP. split; [done|]. rewrite HP. apply expected_stems_parent.
Qed.


(** C6. When the validation fails, [separate] prints the reason and the
  line of supported formats (after the header, if verbose), and raises
  [SystemExit(1)]; the trace is untouched, so [process_audio] was not
  entered and the progress callback not invoked, and so are the progress
  bar and the clock. *)
Theorem separate_rejects_invalid fs audio_file output_dir verbose
  (w : world E) reason :
validate_audio_file fs audio_file = Returns (false, reason) →
let run := separate fs audio_file output_dir verbose w in
run.1 = Raises (SystemExit 1) ∧
exit_code run.1 ≠ 0 ∧
console run.2 =
  console w ++ header_items audio_file output_dir verbose ++
  [ Text ("✗ " +:+ reason) "bold red";
    Markup (PyStr.nl +:+
            "[dim]Supported formats: .flac, .m4a, .mp3, .ogg, .wav[/dim]"
            +:+ PyStr.nl) "yellow" ] ∧
trace run.2 = trace w ∧
ext run.2 = ext w ∧
clock run.2 = clock w.
Proof.
intros Hv run. subst run.
rewrite (separate_invalid_run _ _ _ _ _ _ Hv).
cbn [fst snd add_console ext console clock sigint trace].
repeat split; done.
Qed.

(** C9, as amended. click converts the value of [--output-dir] before it
  calls the function, and refuses a value that names an existing
  regular file, or a path that is there and may not be read: the run
  then ends with status 2 and nothing is processed. Two runs of the
  command that differ only in the value of [--output-dir], both values
  taken by click, end the same way, with the same progress bar, clock
  and trace, and print the same lines after the header. Every result
  that [process_audio] returns in such a run holds the stems of the
  input, each in the parent directory of the input. *)
Theorem output_dir_is_ignored fs can_read audio_file od1 od2 verbose
  (w : world E) :
from_option (click_path fs false true can_read) true od1 = true →
from_option (click_path fs false true can_read) true od2 = true →
let run1 := separate_command fs can_read audio_file od1 verbose w in
let run2 := separate_command fs can_read audio_file od2 verbose w in
let taken := click_path fs true true can_read audio_file in
run1.1 = run2.1 ∧
ext run1.2 = ext run2.2 ∧
clock run1.2 = clock run2.2 ∧
sigint run1.2 = sigint run2.2 ∧
trace run1.2 = trace run2.2 ∧
(∃ rest,
   console run1.2 =
     console w ++
     (if taken then header_items audio_file od1 verbose else []) ++ rest ∧
   console run2.2 =
     console w ++
     (if taken then header_items audio_file od2 verbose else []) ++ rest) ∧
(∃ new,
   trace run1.2 = trace w ++ new ∧
   ∀ r, EvReturn r ∈ new →
        stems r = expected_stems audio_file ∧
        Forall (λ s, parent (Path s) = parent (Path audio_file)) (stems r)) ∧
(∀ od,
   from_option (click_path fs false true can_read) true od = false →
   separate_command fs can_read audio_file od verbose w =
   (Raises (SystemExit 2), w)).
Proof.
intros H1 H2 run1 run2 taken. subst run1 run2 taken.
unfold separate_command. rewrite H1, H2. rewrite !andb_true_r.
split; [|split; [|split; [|split; [|split; [|split; [|split]]]]]].
8:{ intros od ->. by rewrite andb_false_r. }
all: destruct (click_path fs true true can_read audio_file).
all: try apply (separate_output_dir fs audio_file od1 od2 verbose w).
all: try done.
- exists []. by rewrite !app_nil_r.
- exists []. split; [by rewrite app_nil_r|]. by intros r Hr%elem_of_nil.
Qed.

End CliClaims.

(** Runs of the command on the test doubles. *)
Example separate_succeeds :
  let run := Cli.separate fs0 "/music/song.mp3" (Some "/tmp/out") false
               (world0 bar0) in
  Cli.exit_code run.1 = 0 ∧
  stems <$> returns_of (trace run.2) =
    [[ "/music/song_vocals.mp3"; "/music/song_drums.mp3";
       "/music/song_bass.mp3"; "/music/song_other.mp3" ]] ∧
  completed (ext run.2) = 100.
Proof. by vm_compute. Qed.

Example separate_interrupted :
  Cli.exit_code
    (Cli.separate fs0 "/music/song.mp3" None false
       (mkWorld bar0 [] clock0 (Some 2%nat) [])).1 = 130.
Proof. by vm_compute. Qed.

Example separate_progress_fails :
  Cli.exit_code
    (Cli.separate (Progress0 := failing_bar (Exception "boom") 50)
       fs0 "/music/song.mp3" None true (world0 bar0)).1 = 1.
Proof. by vm_compute. Qed.

(** A stem path that rich reads as markup: the panel is printed, the
    first line with a full path is refused, and the command ends with
    status 1. *)
Example separate_markup_in_path :
  let run := Cli.separate fs0 "/music/[/b].mp3" None true (world0 bar0) in
  run.1 = Raises (SystemExit 1) ∧
  existsb is_panel (console run.2) = true ∧
  existsb is_traceback (console run.2) = true ∧
  (Cli.separate fs0 "/music/[/b].mp3" None false (world0 bar0)).1 = Returns ().
Proof. by vm_compute. Qed.

(** An error of [os.stat] leaves the command uncaught. *)
Example separate_stat_error :
  (Cli.separate fs0 "/locked/song.mp3" None false (world0 bar0)).1 =
  Raises (Exception "[Errno 13] Permission denied: '/locked/song.mp3'").
Proof. by vm_compute. Qed.


Lemma separate_rejects_invalid_witness :
  AudioProcessor.validate_audio_file fs0 "/music/notes.txt" =
    Returns (false, unsupported_reason ".txt") ∧
  let run := Cli.separate fs0 "/music/notes.txt" None false (world0 bar0) in
  run.1 = Raises (SystemExit 1) ∧ trace run.2 = [] ∧ ext run.2 = bar0.
Proof.
  split; [reflexivity|].
  destruct (separate_rejects_invalid fs0 "/music/notes.txt" None false
              (world0 bar0) _ eq_refl)
    as (Hr & _ & _ & Ht & He & _).
  split; [exact Hr|]. split; [exact Ht|exact He].
Defined.

(** C9 as the claim states it fails: with [-o] naming an existing file
    click ends the run with status 2 and no stems are computed, while
    with another value the same input gives its four stems. *)
Lemma output_dir_not_ignored :
  let run1 := Cli.separate_command fs0 can_read0 "/music/song.mp3"
                (Some "/music/notes.txt") false (world0 bar0) in
  let run2 := Cli.separate_command fs0 can_read0 "/music/song.mp3"
                (Some "/tmp/out") false (world0 bar0) in
  run1.1 = Raises (SystemExit 2) ∧
  stems <$> returns_of (trace run1.2) = [] ∧
  run2.1 = Returns () ∧
  stems <$> returns_of (trace run2.2) =
    [[ "/music/song_vocals.mp3"; "/music/song_drums.mp3";
       "/music/song_bass.mp3"; "/music/song_other.mp3" ]] ∧
  stems <$> returns_of (trace run1.2) ≠ stems <$> returns_of (trace run2.2).
Proof. by vm_compute. Qed.

Lemma output_dir_is_ignored_witness :
  from_option (Cli.click_path fs0 false true can_read0) true None = true ∧
  from_option (Cli.click_path fs0 false true can_read0) true (Some "/tmp/out")
    = true ∧
  let run1 := Cli.separate_command fs0 can_read0 "/music/song.mp3" None true
                (world0 bar0) in
  let run2 := Cli.separate_command fs0 can_read0 "/music/song.mp3"
                (Some "/tmp/out") true (world0 bar0) in
  run1.1 = run2.1 ∧ trace run1.2 = trace run2.2.
Proof.
  split; [reflexivity|]. split; [reflexivity|].
  destruct (output_dir_is_ignored fs0 can_read0 "/music/song.mp3" None
              (Some "/tmp/out") true (world0 bar0) eq_refl eq_refl)
    as (Hr & _ & _ & _ & Ht & _).
  split; [exact Hr|exact Ht].
Defined.

(** * Further properties *)

(** ** More on the validator *)

Section ValidatorExtras.
Import Pathlib AudioProcessor.

(** X1. The validator judges the path as [pathlib] normalises it: a spelling
  with doubled or trailing slashes or with [.] components is valid
  exactly when the normalised path is, and for a regular file the two
  answers are the same. *)
Theorem validate_audio_file_normalised fs p q :
Path q = Path p →
fst <$> validate_audio_file fs q = fst <$> validate_audio_file fs p ∧
fst <$> validate_audio_file fs (str (Path p)) =
  fst <$> validate_audio_file fs p ∧
(fs (str (Path p)) = RegularFile →
 validate_audio_file fs q = validate_audio_file fs p).
Proof.
intros Hq. destruct (validate_depends_on_path fs p q Hq) as [H1 H2].
split; [done|]. split; [|done].
apply validate_depends_on_path. apply Path_str, Path_normal.
Qed.

(** X2. A regular file whose name is a non-empty base followed by a supported
  extension, in any letter case, passes the validation. *)
Theorem validate_accepts_supported_name fs p base ext :
fs (str (Path p)) = RegularFile →
name (Path p) = base +:+ ext →
base ≠ "" →
supported_ci ext →
suffix (Path p) = ext ∧ validate_audio_file fs p = Returns (true, "").
Proof.
intros Hk Hn Hb Hci.
destruct (supported_ci_shape ext Hci) as (t & -> & Ht & Hc).
destruct (suffix_stem_of_app (Path p) base t Hn Hb Ht Hc) as [Hs _].
split; [done|]. apply validate_supported; [done|].
rewrite Hs. by apply supported_ci_iff.
Qed.

End ValidatorExtras.

(** ** More on the stems that [process_audio] returns *)

Section StemExtras.
Import Pathlib AudioProcessor.
Context {E : Type} (cb : string → Q → Eff E unit).

(** The stems of a result, whatever the callback and the world. *)
Lemma process_audio_result_stems file_path (w : world E) r :
(process_audio file_path cb w).1 = Returns r →
stems r = expected_stems file_path.
Proof. intros Hr. by apply (proj2 (traces_process_audio file_path cb w)). Qed.

(** X3. The stems that [process_audio] returns carry the extension of
  the input: when the input has a suffix, each stem of a result has the
  same suffix, and its own stem is the input's followed by an underscore
  and one of the four labels. *)
Theorem stems_keep_extension file_path (w : world E) r s :
(process_audio file_path cb w).1 = Returns r →
suffix (Path file_path) ≠ "" →
s ∈ stems r →
suffix (Path s) = suffix (Path file_path) ∧
∃ label, label ∈ ["vocals"; "drums"; "bass"; "other"] ∧
         stem (Path s) = stem (Path file_path) +:+ "_" +:+ label.
Proof.
intros Hr Hs Hin. rewrite (process_audio_result_stems _ _ _ Hr) in Hin.
apply elem_of_expected_stems in Hin as (label & Hl & ->).
destruct (stem_file_suffix file_path label Hs Hl) as [Hsuf Hst].
split; [exact Hsuf|]. exists label. by split.
Qed.

(** X4. What [process_audio] returns can be handed back to the
  validator: if the input is valid, every stem of a result that exists
  as a regular file is valid too. *)
Theorem stems_pass_validation fs file_path (w : world E) r s :
fst <$> validate_audio_file fs file_path = Returns true →
(process_audio file_path cb w).1 = Returns r →
s ∈ stems r →
fs s = RegularFile →
validate_audio_file fs s = Returns (true, "").
Proof.
intros Hv Hr Hin Hk. rewrite (process_audio_result_stems _ _ _ Hr) in Hin.
apply elem_of_expected_stems in Hin as (label & Hl & ->).
destruct (valid_inv fs file_path Hv) as (_ & _ & Hsup & Hs).
destruct (stem_file_suffix file_path label Hs Hl) as [Hsuf _].
destruct (stem_file_path file_path label (label_no_sep _ Hl)) as [_ Hstr].
apply validate_supported; [by rewrite Hstr|]. by rewrite Hsuf.
Qed.

(** X5. The stems of a result of [process_audio] are four different
  paths, and none of them is the input, however the input is spelled. *)
Theorem stems_distinct file_path (w : world E) r :
(process_audio file_path cb w).1 = Returns r →
length (stems r) = 4%nat ∧
NoDup (stems r) ∧
∀ s, s ∈ stems r → s ≠ file_path ∧ Path s ≠ Path file_path.
Proof.
intros Hr. rewrite (process_audio_result_stems _ _ _ Hr).
split; [done|]. split; [apply expected_stems_nodup|].
apply expected_stems_not_input.
Qed.

End StemExtras.

(** ** More on [process_audio] *)

Section ProcessExtras.
Import Pathlib AudioProcessor.
Context {E : Type} (cb : string → Q → Eff E unit).

(** X6. A run that no Ctrl-C disturbs during its seven pauses, with a
  callback that returns: stage by stage the callback and then a pause
  for which half a second is asked, nothing printed; the clock is read
  twice, on entry and after the last pause, and the duration is the
  second reading less the first; a Ctrl-C due later stays pending. *)
Theorem process_audio_timeline file_path (w : world E) e' :
quiet_for 7 (sigint w) →
run_calls cb expected_calls (ext w) = (Returns (), e') →
∃ r w',
  process_audio file_path cb w = (Returns r, w') ∧
  trace w' =
    trace w ++ EvEnter file_path :: events_upto expected_calls ++ [EvReturn r] ∧
  ext w' = e' ∧
  console w' = console w ∧
  sigint w' = sigint_after 7 (sigint w) ∧
  (∀ n, clock w' n = clock w (2 + n)%nat) ∧
  duration r = (clock w 1%nat - clock w 0%nat)%Q ∧
  stems r = expected_stems file_path.
Proof.
intros Hq Hrun. rewrite (process_audio_quiet_run cb file_path w e') by done.
cbn zeta. eexists _, _. split; [done|].
cbn [ext console clock sigint trace stems duration].
repeat split; done.
Qed.

(** X7. Ctrl-C during the pause of the stage of index [k], the callback
  having returned on the stages up to it: [process_audio] raises
  [KeyboardInterrupt] after exactly [k+1] progress calls and [k] pauses,
  prints nothing and returns nothing. *)
Theorem process_audio_interrupted file_path (w : world E) k step f e' :
sigint w = Some k →
expected_calls !! k = Some (step, f) →
run_calls cb (take (S k) expected_calls) (ext w) = (Returns (), e') →
∃ w',
  process_audio file_path cb w = (Raises KeyboardInterrupt, w') ∧
  trace w' =
    trace w ++ EvEnter file_path :: events_upto (take k expected_calls)
      ++ [EvProgress step f] ∧
  progress_calls (drop (length (trace w)) (trace w')) =
    take (S k) expected_calls ∧
  returns_of (drop (length (trace w)) (trace w')) = [] ∧
  ext w' = e' ∧
  console w' = console w ∧
  sigint w' = None.
Proof.
intros Hs Hk Hrun.
rewrite (process_audio_interrupt_run cb file_path w k step f e') by done.
eexists. split; [done|]. cbn [ext console clock sigint trace].
destruct (cut_trace_facts (trace w) file_path k step f Hk) as [Hp Hr].
split; [done|]. split; [exact Hp|]. split; [exact Hr|done].
Qed.

(** X8. The callback raising on the stage of index [j], after it returned
  on the stages before: [process_audio] raises the same exception at
  once, after [j+1] progress calls and [j] pauses; it makes no further
  call and returns nothing. *)
Theorem process_audio_callback_raises file_path (w : world E) j step f e1 ex e2 :
quiet_for j (sigint w) →
expected_calls !! j = Some (step, f) →
run_calls cb (take j expected_calls) (ext w) = (Returns (), e1) →
cb step f e1 = (Raises ex, e2) →
∃ w',
  process_audio file_path cb w = (Raises ex, w') ∧
  trace w' =
    trace w ++ EvEnter file_path :: events_upto (take j expected_calls)
      ++ [EvProgress step f] ∧
  progress_calls (drop (length (trace w)) (trace w')) =
    take (S j) expected_calls ∧
  returns_of (drop (length (trace w)) (trace w')) = [] ∧
  ext w' = e2 ∧
  console w' = console w ∧
  sigint w' = sigint_after j (sigint w).
Proof.
intros Hq Hj Hrun Hcb.
rewrite (process_audio_raise_run cb file_path w j step f e1 ex e2) by done.
eexists. split; [done|]. cbn [ext console clock sigint trace].
destruct (cut_trace_facts (trace w) file_path j step f Hj) as [Hp Hr].
split; [done|]. split; [exact Hp|]. split; [exact Hr|done].
Qed.

End ProcessExtras.

(** ** More on the command *)

Section CommandExtras.
Import Pathlib AudioProcessor Cli.
Context {E : Type} `{!Progress E} {parser : Rich}.




(** X12. A run that goes well asks of the progress bar, in this order:
  to start, to add the task, the seven updates with the stage names and
  the percentages 14, 28, 42, 57, 71, 85 and 100, and to stop. *)
Theorem run_with_progress_bar_script audio_file (w : world E) :
quiet_for 7 (sigint w) →
(bar_script (ext w)).1 = Returns () →
∃ r w',
  run_with_progress audio_file w = (Returns r, w') ∧
  ext w' = (bar_script (ext w)).2 ∧
  stems r = expected_stems audio_file ∧
  console w' = console w.
Proof.
intros Hq Hbar. rewrite (run_with_progress_returns audio_file w Hq Hbar).
cbn zeta. eexists _, _. by split.
Qed.

(** X13. Once the progress bar has started, stopping it is the last
  thing [separate] does to it, whether the processing returns, fails or
  is interrupted. *)
Theorem progress_bar_always_closed fs audio_file output_dir verbose
  (w : world E) e1 :
fst <$> validate_audio_file fs audio_file = Returns true →
progress_start (ext w) = (Returns (), e1) →
∃ e, ext (separate fs audio_file output_dir verbose w).2 = (progress_stop e).2.
Proof.
intros Hv Hstart.
destruct (separate_valid_facts fs audio_file output_dir verbose w Hv)
  as (_ & He & _).
rewrite He. unfold run_with_progress. rewrite bind_run.
unfold on_ext at 1. rewrite Hstart. cbn beta iota. unfold finally.
match goal with
| |- context [(?m ≫= ?k) ?w0] => destruct ((m ≫= k) w0) as [rb wb]
end.
exists (ext wb). unfold on_ext.
destruct (progress_stop (ext wb)) as [q e4]. by destruct rb, q.
Qed.

(** X14. If the progress bar fails to start, [process_audio] is not
  entered and the bar is left as the failed start left it; the outcome is
  the one the handlers give that exception. *)
Theorem progress_start_failure fs audio_file output_dir verbose
  (w : world E) ex e1 :
fst <$> validate_audio_file fs audio_file = Returns true →
progress_start (ext w) = (Raises ex, e1) →
let run := separate fs audio_file output_dir verbose w in
trace run.2 = trace w ∧
ext run.2 = e1 ∧
run.1 =
  match ex with
  | KeyboardInterrupt => Raises (SystemExit 130)
  | Exception _ => Raises (SystemExit 1)
  | SystemExit c => Raises (SystemExit c)
  end.
Proof.
intros Hv Hstart run. subst run.
assert (run_with_progress audio_file w =
        (Raises ex, mkWorld e1 (console w) (clock w) (sigint w) (trace w)))
  as Hrun.
{ unfold run_with_progress. rewrite bind_run. unfold on_ext at 1.
  by rewrite Hstart. }
destruct (separate_block_raises fs audio_file output_dir verbose w ex _
            Hv Hrun) as (H1 & H2 & H3 & _).
by repeat split.
Qed.

End CommandExtras.

Section CommandCutShort.
Import Pathlib AudioProcessor Cli.
Context {E : Type} `{!Progress E} {parser : Rich}.

(** X15. Ctrl-C during the pause of the stage of index [k], with a
  progress bar that works: [separate] prints the cancellation message
  and no panel, raises [SystemExit(130)], and leaves the bar stopped
  after exactly [k+1] updates; [process_audio] returned nothing. *)
Theorem separate_cancelled fs audio_file output_dir verbose
  (w : world E) k task e3 e4 :
fst <$> validate_audio_file fs audio_file = Returns true →
sigint w = Some k →
(k < 7)%nat →
bar_prefix (S k) (ext w) = (Returns task, e3) →
progress_stop e3 = (Returns (), e4) →
let run := separate fs audio_file output_dir verbose w in
run.1 = Raises (SystemExit 130) ∧
ext run.2 = e4 ∧
console run.2 =
  console w ++ header_items audio_file output_dir verbose ++
  [ Text ("ℹ Processing: " +:+ name (Path audio_file)) "bold blue";
    Newline ] ++ interrupt_items ∧
returns_of (drop (length (trace w)) (trace run.2)) = [] ∧
progress_calls (drop (length (trace w)) (trace run.2)) =
  take (S k) expected_calls.
Proof.
intros Hv Hs Hk Hpre Hstop run. subst run.
destruct (run_with_progress_interrupted audio_file w k task e3 e4
            Hs Hk Hpre Hstop) as (wp & Hrwp & He & Hr & Hp).
destruct (separate_block_raises fs audio_file output_dir verbose w
            KeyboardInterrupt _ Hv Hrwp) as (H1 & H2 & H3 & H4).
split; [done|]. split; [by rewrite H2|]. split; [done|].
rewrite H3. by split.
Qed.

(** X16. An update of the progress bar raising an [Exception] on the
  stage of index [j]: [separate] prints the error message with the text
  of the exception, no panel, raises [SystemExit(1)], and stops the
  bar; [process_audio] makes no further progress call and returns
  nothing. *)
Theorem separate_update_fails fs audio_file output_dir verbose
  (w : world E) j task e3 d c msg e4 e5 :
fst <$> validate_audio_file fs audio_file = Returns true →
quiet_for j (sigint w) →
bar_prefix j (ext w) = (Returns task, e3) →
bar_updates !! j = Some (d, c) →
progress_update task d c e3 = (Raises (Exception msg), e4) →
progress_stop e4 = (Returns (), e5) →
let run := separate fs audio_file output_dir verbose w in
run.1 = Raises (SystemExit 1) ∧
ext run.2 = e5 ∧
console run.2 =
  console w ++ header_items audio_file output_dir verbose ++
  [ Text ("ℹ Processing: " +:+ name (Path audio_file)) "bold blue";
    Newline ] ++ error_items verbose msg ∧
returns_of (drop (length (trace w)) (trace run.2)) = [] ∧
progress_calls (drop (length (trace w)) (trace run.2)) =
  take (S j) expected_calls.
Proof.
intros Hv Hq Hpre Hj Hfail Hstop run. subst run.
apply bar_updates_lookup in Hj as (step & f & Hlk & -> & ->).
apply bar_prefix_inv in Hpre as (e1 & e2 & Hstart & Hadd & Hup).
rewrite <-run_calls_updates_take in Hup.
pose proof (process_audio_raise_run (update_progress task) audio_file
              (mkWorld e2 (console w) (clock w) (sigint w) (trace w))
              j step f e3 (Exception msg) e4 Hq Hlk Hup Hfail) as Hrun.
cbn [ext console clock sigint trace] in Hrun.
pose proof (run_with_progress_raises audio_file w e1 task e2
              (Exception msg) _ e5 Hstart Hadd Hrun Hstop) as Hrwp.
destruct (separate_block_raises fs audio_file output_dir verbose w
            (Exception msg) _ Hv Hrwp) as (H1 & H2 & H3 & H4).
split; [done|]. split; [done|]. split; [done|].
rewrite H3. cbn [trace].
destruct (cut_trace_facts (trace w) audio_file j step f Hlk) as [Hp Hr].
by split.
Qed.

End CommandCutShort.

Lemma separate_cancelled_witness :
  fst <$> AudioProcessor.validate_audio_file fs0 "/music/song.mp3" =
    Returns true ∧
  (2 < 7)%nat ∧
  bar_prefix 3 bar0 = (Returns 0, mkBar true "[cyan]Separating vocals" 42) ∧
  progress_stop (mkBar true "[cyan]Separating vocals" 42) =
    (Returns (), mkBar false "[cyan]Separating vocals" 42) ∧
  let run := Cli.separate fs0 "/music/song.mp3" None false
               (mkWorld bar0 [] clock0 (Some 2%nat) []) in
  run.1 = Raises (SystemExit 130) ∧
  ext run.2 = mkBar false "[cyan]Separating vocals" 42 ∧
  progress_calls (trace run.2) = take 3 expected_calls.
Proof.
  assert ((2 < 7)%nat) as Hk by lia.
  assert (bar_prefix 3 bar0 =
          (Returns 0, mkBar true "[cyan]Separating vocals" 42)) as Hpre
    by reflexivity.
  split; [reflexivity|]. split; [exact Hk|]. split; [exact Hpre|].
  split; [reflexivity|].
  destruct (separate_cancelled fs0 "/music/song.mp3" None false
              (mkWorld bar0 [] clock0 (Some 2%nat) []) 2 0
              (mkBar true "[cyan]Separating vocals" 42)
              (mkBar false "[cyan]Separating vocals" 42)
              eq_refl eq_refl Hk Hpre eq_refl)
    as (H1 & H2 & _ & _ & H5).
  split; [exact H1|]. split; [exact H2|exact H5].
Defined.

Lemma separate_update_fails_witness :
  fst <$> AudioProcessor.validate_audio_file fs0 "/music/song.mp3" =
    Returns true ∧
  quiet_for 3 (None : option nat) ∧
  bar_prefix (Progress0 := failing_bar (Exception "boom") 50) 3 bar0 =
    (Returns 0, mkBar true "[cyan]Separating vocals" 42) ∧
  bar_updates !! 3%nat = Some ("[cyan]Separating drums", 57) ∧
  progress_update (Progress := failing_bar (Exception "boom") 50)
    0 "[cyan]Separating drums" 57 (mkBar true "[cyan]Separating vocals" 42) =
    (Raises (Exception "boom"), mkBar true "[cyan]Separating vocals" 42) ∧
  let run := Cli.separate (Progress0 := failing_bar (Exception "boom") 50)
               fs0 "/music/song.mp3" None true (world0 bar0) in
  run.1 = Raises (SystemExit 1) ∧
  ext run.2 = mkBar false "[cyan]Separating vocals" 42 ∧
  Text "✗ An error occurred during processing: boom" "bold red"
    ∈ console run.2.
Proof.
  assert (bar_prefix (Progress0 := failing_bar (Exception "boom") 50) 3 bar0 =
          (Returns 0, mkBar true "[cyan]Separating vocals" 42)) as Hpre
    by reflexivity.
  split; [reflexivity|]. split; [exact I|]. split; [exact Hpre|].
  split; [reflexivity|]. split; [reflexivity|].
  destruct (separate_update_fails (Progress0 := failing_bar (Exception "boom") 50)
              fs0 "/music/song.mp3" None true (world0 bar0) 3 0
              (mkBar true "[cyan]Separating vocals" 42)
              "[cyan]Separating drums" 57 "boom"
              (mkBar true "[cyan]Separating vocals" 42)
              (mkBar false "[cyan]Separating vocals" 42)
              eq_refl I Hpre eq_refl eq_refl eq_refl)
    as (H1 & H2 & H3 & _).
  split; [exact H1|]. split; [exact H2|].
  rewrite H3. do 5 right. left.
Defined.

(** ** The further properties on concrete inputs *)

Lemma validate_audio_file_normalised_witness :
  Pathlib.Path "/music//./song.mp3/" = Pathlib.Path "/music/song.mp3" ∧
  AudioProcessor.validate_audio_file fs0 "/music//./song.mp3/" =
    Returns (true, "").
Proof.
  split; [reflexivity|].
  destruct (validate_audio_file_normalised fs0 "/music/song.mp3"
              "/music//./song.mp3/" eq_refl) as (_ & _ & H).
  rewrite (H eq_refl). reflexivity.
Defined.

Lemma validate_accepts_supported_name_witness :
  fs0 (Pathlib.str (Pathlib.Path "/music/LIVE.FlaC")) = RegularFile ∧
  Pathlib.name (Pathlib.Path "/music/LIVE.FlaC") = "LIVE" +:+ ".FlaC" ∧
  "LIVE" ≠ "" ∧
  supported_ci ".FlaC" ∧
  Pathlib.suffix (Pathlib.Path "/music/LIVE.FlaC") = ".FlaC" ∧
  AudioProcessor.validate_audio_file fs0 "/music/LIVE.FlaC" = Returns (true, "").
Proof.
  assert (supported_ci ".FlaC") as Hci.
  { exists ".flac". split; [|reflexivity].
    apply elem_of_supported. right. right. left. reflexivity. }
  split; [reflexivity|]. split; [reflexivity|]. split; [discriminate|].
  split; [exact Hci|].
  apply (validate_accepts_supported_name fs0 "/music/LIVE.FlaC" "LIVE" ".FlaC");
    [reflexivity|reflexivity|discriminate|exact Hci].
Defined.

Lemma stems_keep_extension_witness :
  (AudioProcessor.process_audio "a/b/song.mp3" recorder (world0 [])).1 =
    Returns (result0 "a/b/song.mp3") ∧
  Pathlib.suffix (Pathlib.Path "a/b/song.mp3") ≠ "" ∧
  "a/b/song_drums.mp3" ∈ stems (result0 "a/b/song.mp3") ∧
  Pathlib.suffix (Pathlib.Path "a/b/song_drums.mp3") = ".mp3".
Proof.
  assert ("a/b/song_drums.mp3" ∈ stems (result0 "a/b/song.mp3")) as Hin
    by (right; left).
  split; [reflexivity|]. split; [discriminate|]. split; [exact Hin|].
  apply (stems_keep_extension recorder "a/b/song.mp3" (world0 [])
           (result0 "a/b/song.mp3") "a/b/song_drums.mp3");
    [reflexivity|discriminate|exact Hin].
Defined.

Lemma stems_pass_validation_witness :
  fst <$> AudioProcessor.validate_audio_file fs1 "/music/song.mp3" =
    Returns true ∧
  (AudioProcessor.process_audio "/music/song.mp3" recorder (world0 [])).1 =
    Returns (result0 "/music/song.mp3") ∧
  "/music/song_bass.mp3" ∈ stems (result0 "/music/song.mp3") ∧
  fs1 "/music/song_bass.mp3" = RegularFile ∧
  AudioProcessor.validate_audio_file fs1 "/music/song_bass.mp3" =
    Returns (true, "").
Proof.
  assert ("/music/song_bass.mp3" ∈ stems (result0 "/music/song.mp3")) as Hin
    by (right; right; left).
  split; [reflexivity|]. split; [reflexivity|]. split; [exact Hin|].
  split; [reflexivity|].
  apply (stems_pass_validation recorder fs1 "/music/song.mp3" (world0 [])
           (result0 "/music/song.mp3") "/music/song_bass.mp3");
    [reflexivity|reflexivity|exact Hin|reflexivity].
Defined.

Lemma stems_distinct_witness :
  (AudioProcessor.process_audio "song.mp3" recorder (world0 [])).1 =
    Returns (result0 "song.mp3") ∧
  NoDup (stems (result0 "song.mp3")) ∧
  "song.mp3" ∉ stems (result0 "song.mp3").
Proof.
  split; [reflexivity|].
  destruct (stems_distinct recorder "song.mp3" (world0 [])
              (result0 "song.mp3") eq_refl) as (_ & Hnd & Hne).
  split; [exact Hnd|].
  intros Hin. exact (proj1 (Hne _ Hin) eq_refl).
Defined.

Lemma process_audio_timeline_witness :
  quiet_for 7 (Some 9%nat) ∧
  run_calls recorder expected_calls [] = (Returns (), expected_calls) ∧
  ∃ r w',
    AudioProcessor.process_audio "song.mp3" recorder
      (mkWorld [] [] clock0 (Some 9%nat) []) = (Returns r, w') ∧
    ext w' = expected_calls ∧ sigint w' = Some 2%nat ∧
    duration r = (clock0 1%nat - clock0 0%nat)%Q.
Proof.
  assert (quiet_for 7 (Some 9%nat)) as Hq by (simpl; lia).
  split; [exact Hq|]. split; [reflexivity|].
  destruct (process_audio_timeline recorder "song.mp3"
              (mkWorld [] [] clock0 (Some 9%nat) []) expected_calls Hq eq_refl)
    as (r & w' & Hrun & _ & He & _ & Hs & _ & Hd & _).
  exists r, w'. split; [exact Hrun|]. split; [exact He|].
  split; [exact Hs|exact Hd].
Defined.

Lemma process_audio_interrupted_witness :
  sigint (mkWorld ([] : list (string * Q)) [] clock0 (Some 2%nat) [])
    = Some 2%nat ∧
  expected_calls !! 2%nat = Some ("Separating vocals", 3 # 7) ∧
  run_calls recorder (take 3 expected_calls) [] =
    (Returns (), take 3 expected_calls) ∧
  ∃ w',
    AudioProcessor.process_audio "song.mp3" recorder
      (mkWorld [] [] clock0 (Some 2%nat) []) = (Raises KeyboardInterrupt, w') ∧
    progress_calls (trace w') = take 3 expected_calls ∧
    returns_of (trace w') = [].
Proof.
  split; [reflexivity|]. split; [reflexivity|]. split; [reflexivity|].
  destruct (process_audio_interrupted recorder "song.mp3"
              (mkWorld [] [] clock0 (Some 2%nat) []) 2 "Separating vocals"
              (3 # 7) (take 3 expected_calls) eq_refl eq_refl eq_refl)
    as (w' & Hrun & _ & Hp & Hr & _).
  exists w'. split; [exact Hrun|]. split; [exact Hp|exact Hr].
Defined.

Lemma process_audio_callback_raises_witness :
  quiet_for 3 (None : option nat) ∧
  expected_calls !! 3%nat = Some ("Separating drums", 4 # 7) ∧
  run_calls (failing_recorder 3) (take 3 expected_calls) [] =
    (Returns (), take 3 expected_calls) ∧
  failing_recorder 3 "Separating drums" (4 # 7) (take 3 expected_calls) =
    (Raises (Exception "callback failed"), take 3 expected_calls) ∧
  ∃ w',
    AudioProcessor.process_audio "song.mp3" (failing_recorder 3) (world0 []) =
      (Raises (Exception "callback failed"), w') ∧
    ext w' = take 3 expected_calls.
Proof.
  split; [exact I|]. split; [reflexivity|]. split; [reflexivity|].
  split; [reflexivity|].
  destruct (process_audio_callback_raises (failing_recorder 3) "song.mp3"
              (world0 []) 3 "Separating drums" (4 # 7)
              (take 3 expected_calls) (Exception "callback failed")
              (take 3 expected_calls) I eq_refl eq_refl eq_refl)
    as (w' & Hrun & _ & _ & _ & He & _).
  exists w'. split; [exact Hrun|exact He].
Defined.


Lemma run_with_progress_bar_script_witness :
  quiet_for 7 (sigint (world0 bar0)) ∧
  (bar_script bar0).1 = Returns () ∧
  ∃ r w',
    Cli.run_with_progress "/music/song.mp3" (world0 bar0) = (Returns r, w') ∧
    ext w' = mkBar false "[cyan]Writing output files" 100.
Proof.
  assert ((bar_script (ext (world0 bar0))).1 = Returns ()) as Hbar
    by reflexivity.
  split; [exact I|]. split; [reflexivity|].
  destruct (run_with_progress_bar_script "/music/song.mp3" (world0 bar0)
              I Hbar) as (r & w' & Hrun & He & _).
  exists r, w'. split; [exact Hrun|exact He].
Defined.

Lemma progress_bar_always_closed_witness :
  fst <$> AudioProcessor.validate_audio_file fs0 "/music/song.mp3" =
    Returns true ∧
  progress_start bar0 = (Returns (), mkBar true "" 0) ∧
  ∃ e,
    ext (Cli.separate fs0 "/music/song.mp3" None false
           (mkWorld bar0 [] clock0 (Some 4%nat) [])).2 = (progress_stop e).2.
Proof.
  split; [reflexivity|]. split; [reflexivity|].
  exact (progress_bar_always_closed fs0 "/music/song.mp3" None false
           (mkWorld bar0 [] clock0 (Some 4%nat) []) (mkBar true "" 0)
           eq_refl eq_refl).
Defined.

Lemma progress_start_failure_witness :
  fst <$> AudioProcessor.validate_audio_file fs0 "/music/song.mp3" =
    Returns true ∧
  progress_start (Progress := broken_bar) bar0 =
    (Raises (Exception "no terminal"), bar0) ∧
  let run := Cli.separate (Progress0 := broken_bar) fs0 "/music/song.mp3"
               None false (world0 bar0) in
  trace run.2 = [] ∧ ext run.2 = bar0 ∧ run.1 = Raises (SystemExit 1).
Proof.
  split; [reflexivity|]. split; [reflexivity|].
  exact (progress_start_failure (Progress0 := broken_bar) fs0
           "/music/song.mp3" None false (world0 bar0)
           (Exception "no terminal") bar0 eq_refl eq_refl).
Defined.
